(** * Daily Progress Tracker: the task store and its statistics

    A shallow embedding of the state logic of [src/App.jsx] (the
    [DailyProgressTracker] component): the task list, the completion log,
    the IndexedDB persistence helpers and the derived statistics.

    Conventions of the embedding.
    - A JavaScript number that is a counter, an index or a time value is an
      integer, kept as [Z].  The one place where the source divides
      ([Math.round((count / total) * 100)]) is computed in IEEE 754 binary64,
      with the operations of the Standard Library's [SpecFloat].
    - A [Date] object is its time value, the milliseconds since the epoch.
      [x.setDate(x.getDate() + k)] moves it by [k] days of 86400000 ms (no
      daylight-saving shift), and [x.toISOString().split('T')[0]] is the UTC
      calendar day, identified with its day number.
    - The clock ([new Date()], [Date.now()]) is an explicit argument.
    - An object used as a dictionary is a [gmap]; an IndexedDB object store
      is a list of records sorted by key, since [getAll] returns them in key
      order. *)

From Stdlib Require Import ZArith NArith List Lia Bool Ascii String Sorted.
From Stdlib Require Import Floats.SpecFloat.
From stdpp Require Import gmap list.

Local Open Scope Z_scope.

(** ** JavaScript numbers and strings *)

Module JS.

(** A number of the division path: an IEEE 754 binary64 value. *)
Definition number : Type := spec_float.

Definition prec : Z := 53.
Definition emax : Z := 1024.


(** The number with the value of an integer (exact below 2^53). *)
Definition of_Z (z : Z) : number := binary_normalize prec emax z 0 false.

(** [x / y] and [x * y]. *)
Definition div (x y : number) : number := SFdiv prec emax x y.
Definition mul (x y : number) : number := SFmul prec emax x y.

(** [Math.round(x)]: the integer nearest to [x], a tie going towards
    positive infinity; NaN, the infinities and the zeros are returned as
    they are, and a result of zero keeps the sign of [x]. *)
Definition Math_round (x : number) : number :=
  match x with
  | S754_finite s m e =>
      if 0 <=? e then x
      else
        let num := if s then Z.neg m else Z.pos m in
        let den := 2 ^ (- e) in
        let r := (2 * num + den) / (2 * den) in
        if r =? 0 then S754_zero s else of_Z r
  | _ => x
  end.

(** [Math.round((count / total) * 100)], the expression shared by the
    completion rate and the period summaries. *)
Definition percent (count total : Z) : number :=
  Math_round (mul (div (of_Z count) (of_Z total)) (of_Z 100)).

(** A string is its sequence of UTF-16 code units. *)
Definition jsstring : Type := list N.

Definition of_ascii (s : string) : jsstring :=
  List.map N_of_ascii (list_ascii_of_string s).

(** WhiteSpace and LineTerminator code points of ECMAScript, the ones
    [String.prototype.trim] strips. *)
Definition is_white_space (c : N) : bool :=
  (((9 <=? c) && (c <=? 13)) || (c =? 32) || (c =? 160) || (c =? 5760)
   || ((8192 <=? c) && (c <=? 8202)) || (c =? 8232) || (c =? 8233)
   || (c =? 8239) || (c =? 8287) || (c =? 12288) || (c =? 65279))%N.

Fixpoint trimStart (s : jsstring) : jsstring :=
  match s with
  | c :: s' => if is_white_space c then trimStart s' else s
  | [] => []
  end.

Definition trimEnd (s : jsstring) : jsstring := rev (trimStart (rev s)).

Definition trim (s : jsstring) : jsstring := trimEnd (trimStart s).

(** Truthiness of a string: only the empty string is falsy. *)
Definition truthy (s : jsstring) : bool :=
  match s with [] => false | _ :: _ => true end.

(** [Array.prototype.sort(cmp)]: the sort is stable (ECMAScript 2019), so
    its result is the one of a stable insertion sort: an element goes after
    every element that the comparator does not put behind it. *)
Section Sort.
Context {A : Type} (cmp : A -> A -> Z).

Fixpoint insert_sorted (x : A) (l : list A) : list A :=
  match l with
  | [] => [x]
  | y :: l' => if cmp x y <=? 0 then x :: l else y :: insert_sorted x l'
  end.

Definition sort (l : list A) : list A := foldr insert_sorted [] l.
End Sort.

End JS.

(** ** Dates *)

Definition Date : Type := Z.

Definition msPerDay : Z := 86400000.

(** [x.setDate(x.getDate() + k)] on a copy of [d]. *)
Definition addDays (d : Date) (k : Z) : Date := d + k * msPerDay.

(** [d.toISOString().split('T')[0]], as a day number. *)
Definition dateStr (d : Date) : Z := d / msPerDay.

Definition getTodayDate (now : Date) : Z := dateStr now.

(** [for (let d = new Date(start); d <= endDate; d.setDate(d.getDate() + 1)) body]
    The loop is a [while]; [fuel] bounds its iterations, and [None] says that
    the bound was reached before the condition failed. *)
Fixpoint for_dates {A : Type} (fuel : nat) (d endDate : Date)
    (body : Date -> A -> A) (acc : A) : option A :=
  match fuel with
  | O => None
  | S fuel' =>
      if d <=? endDate
      then for_dates fuel' (addDays d 1) endDate body (body d acc)
      else Some acc
  end.

(** ** Data model *)

Inductive Priority : Type := high | medium | low.

Record Task : Type := mkTask {
  id : Z;
  name : JS.jsstring;
  color : string;
  priority : Priority;
  completedDays : Z;
  streak : Z;
  createdAt : Date
}.

(** [dailyCompletion]: date key -> (task id -> boolean). *)
Abbreviation CompletionLog := (gmap Z (gmap Z bool)).

(** The state of the component that the store and the statistics read.
    ([viewMode] and [showSummaries] only select what is drawn.) *)
Record State : Type := mkState {
  tasks : list Task;
  newTaskName : JS.jsstring;
  newTaskPriority : Priority;
  dailyCompletion : CompletionLog;
  totalDays : Z;
  editingTask : option Z
}.

Definition initialState : State :=
  {| tasks := []; newTaskName := []; newTaskPriority := medium;
     dailyCompletion := ∅; totalDays := 7; editingTask := None |}.

Definition colors : list string :=
  ["#FF6B6B"; "#4ECDC4"; "#45B7D1"; "#96CEB4"; "#FFEAA7";
   "#DDA0DD"; "#98D8C8"; "#F7DC6F"; "#BB8FCE"; "#85C1E9"]%string.

Definition priorityOrder (p : Priority) : Z :=
  match p with high => 3 | medium => 2 | low => 1 end.

(** The comparator of the three [sort] calls. *)
Definition byPriority (a b : Task) : Z :=
  priorityOrder (priority b) - priorityOrder (priority a).

(** [dailyCompletion[dateStr] && dailyCompletion[dateStr][taskId]] as a
    condition: absent buckets and absent entries are falsy. *)
Definition isCompleted (dc : CompletionLog) (date taskId : Z) : bool :=
  match dc !! date with
  | Some bucket => default false (bucket !! taskId)
  | None => false
  end.

(** ** TaskStore: the mutations *)

Definition set_tasks (ts : list Task) (st : State) : State :=
  {| tasks := ts; newTaskName := newTaskName st;
     newTaskPriority := newTaskPriority st;
     dailyCompletion := dailyCompletion st; totalDays := totalDays st;
     editingTask := editingTask st |}.

Definition set_newTaskName (s : JS.jsstring) (st : State) : State :=
  {| tasks := tasks st; newTaskName := s;
     newTaskPriority := newTaskPriority st;
     dailyCompletion := dailyCompletion st; totalDays := totalDays st;
     editingTask := editingTask st |}.

Definition set_newTaskPriority (p : Priority) (st : State) : State :=
  {| tasks := tasks st; newTaskName := newTaskName st; newTaskPriority := p;
     dailyCompletion := dailyCompletion st; totalDays := totalDays st;
     editingTask := editingTask st |}.

Definition set_dailyCompletion (dc : CompletionLog) (st : State) : State :=
  {| tasks := tasks st; newTaskName := newTaskName st;
     newTaskPriority := newTaskPriority st;
     dailyCompletion := dc; totalDays := totalDays st;
     editingTask := editingTask st |}.

Definition set_totalDays (n : Z) (st : State) : State :=
  {| tasks := tasks st; newTaskName := newTaskName st;
     newTaskPriority := newTaskPriority st;
     dailyCompletion := dailyCompletion st; totalDays := n;
     editingTask := editingTask st |}.

Definition set_editingTask (e : option Z) (st : State) : State :=
  {| tasks := tasks st; newTaskName := newTaskName st;
     newTaskPriority := newTaskPriority st;
     dailyCompletion := dailyCompletion st; totalDays := totalDays st;
     editingTask := e |}.

(** The task that [addTask] builds.  [idNow] is the reading of [Date.now()]
    and [createdNow] the one of [new Date()]. *)
Definition newTask (idNow createdNow : Date) (st : State) : Task :=
  {| id := idNow;
     name := JS.trim (newTaskName st);
     color := nth (length (tasks st) mod length colors) colors ""%string;
     priority := newTaskPriority st;
     completedDays := 0;
     streak := 0;
     createdAt := createdNow |}.

Definition addTask (idNow createdNow : Date) (st : State) : State :=
  if JS.truthy (JS.trim (newTaskName st)) then
    let updatedTasks :=
      JS.sort byPriority (tasks st ++ [newTask idNow createdNow st]) in
    set_newTaskPriority medium (set_newTaskName [] (set_tasks updatedTasks st))
  else st.

(** The [updates] object of [updateTask]: the callers pass [{ name }] or
    [{ priority }]. *)
Record Updates : Type := mkUpdates {
  upd_name : option JS.jsstring;
  upd_priority : option Priority
}.

(** [{ ...task, ...updates }] *)
Definition merge (task : Task) (updates : Updates) : Task :=
  {| id := id task;
     name := default (name task) (upd_name updates);
     color := color task;
     priority := default (priority task) (upd_priority updates);
     completedDays := completedDays task;
     streak := streak task;
     createdAt := createdAt task |}.

Definition updateTask (taskId : Z) (updates : Updates) (st : State) : State :=
  let updatedTasks :=
    JS.sort byPriority
      (map (fun task => if decide (id task = taskId) then merge task updates else task)
           (tasks st)) in
  set_editingTask None (set_tasks updatedTasks st).

(** The tasks are filtered, and [delete newDailyCompletion[date][taskId]]
    runs on the bucket of every date key. *)
Definition removeTask (taskId : Z) (st : State) : State :=
  let newDailyCompletion := delete taskId <$> dailyCompletion st in
  set_dailyCompletion newDailyCompletion
    (set_tasks (filter (fun task => id task ≠ taskId) (tasks st)) st).

(** The spread [{ ...dailyCompletion }] copies the date keys only, and the
    bucket is updated in place; the handler is the last reader of the
    previous log, so the new log is all that the state keeps.  A caller
    that leaves [date] out passes [getTodayDate()]. *)
Definition toggleTaskCompletion (taskId date : Z) (st : State) : State :=
  let newDailyCompletion := dailyCompletion st in
  let newDailyCompletion :=
    match newDailyCompletion !! date with
    | Some _ => newDailyCompletion
    | None => <[date := ∅]> newDailyCompletion
    end in
  let bucket := default ∅ (newDailyCompletion !! date) in
  let flipped := negb (default false (bucket !! taskId)) in
  set_dailyCompletion (<[date := <[taskId := flipped]> bucket]> newDailyCompletion) st.

(** ** Persistence: the IndexedDB stores *)

Section ObjectStore.
Context {V : Type}.

(** [store.put(item)]: insert, or overwrite the record with the same key.
    Nothing in the source removes a record. *)
Fixpoint put (k : Z) (v : V) (s : list (Z * V)) : list (Z * V) :=
  match s with
  | [] => [(k, v)]
  | (k', v') :: s' =>
      if k <? k' then (k, v) :: s
      else if k =? k' then (k, v) :: s'
      else (k', v') :: put k v s'
  end.

(** [store.getAll()] *)
Definition getAll (s : list (Z * V)) : list V := map snd s.

(** [saveToIndexedDB(storeName, data)] on an array: one [put] per item. *)
Definition saveToIndexedDB (keyPath : V -> Z) (data : list V)
    (s : list (Z * V)) : list (Z * V) :=
  foldl (fun s item => put (keyPath item) item s) s data.

Definition loadFromIndexedDB (s : list (Z * V)) : list V := getAll s.
End ObjectStore.

(** A record of the [completions] store: [{ id: date, data: data }]. *)
Record Completion : Type := mkCompletion {
  completion_id : Z;
  completion_data : gmap Z bool
}.

Record DB : Type := mkDB {
  tasksStore : list (Z * Task);
  completionsStore : list (Z * Completion)
}.

Definition emptyDB : DB := {| tasksStore := []; completionsStore := [] |}.

(** The effect on [[tasks]]. *)
Definition saveTasksEffect (st : State) (db : DB) : DB :=
  if (0 <? length (tasks st))%nat then
    {| tasksStore := saveToIndexedDB id (tasks st) (tasksStore db);
       completionsStore := completionsStore db |}
  else db.

(** The effect on [[dailyCompletion]].  ([Object.entries] lists the date
    keys in insertion order and [map_to_list] in its own; the records are
    stored by key, so the store does not depend on the order.) *)
Definition saveCompletionsEffect (st : State) (db : DB) : DB :=
  let completionEntries :=
    map (fun '(date, data) => {| completion_id := date; completion_data := data |})
        (map_to_list (dailyCompletion st)) in
  if (0 <? length completionEntries)%nat then
    {| tasksStore := tasksStore db;
       completionsStore :=
         saveToIndexedDB completion_id completionEntries (completionsStore db) |}
  else db.

(** [loadData], run once on mount. *)
Definition loadData (db : DB) (st : State) : State :=
  let loadedTasks := loadFromIndexedDB (tasksStore db) in
  let loadedCompletions := loadFromIndexedDB (completionsStore db) in
  let st :=
    if (0 <? length loadedTasks)%nat
    then set_tasks (JS.sort byPriority loadedTasks) st
    else st in
  if (0 <? length loadedCompletions)%nat then
    let completionMap :=
      foldl (fun m completion => <[completion_id completion := completion_data completion]> m)
            (∅ : CompletionLog) loadedCompletions in
    set_dailyCompletion completionMap st
  else st.

(** The user's actions on the store. *)
Inductive Event : Type :=
  | SetNewTaskName (s : JS.jsstring)
  | SetNewTaskPriority (p : Priority)
  | SetTotalDays (n : Z)
  | SetEditingTask (e : option Z)
  | AddTask (idNow createdNow : Date)
  | UpdateTask (taskId : Z) (updates : Updates)
  | RemoveTask (taskId : Z)
  | ToggleTaskCompletion (taskId date : Z).

Definition handle (ev : Event) (st : State) : State :=
  match ev with
  | SetNewTaskName s => set_newTaskName s st
  | SetNewTaskPriority p => set_newTaskPriority p st
  | SetTotalDays n => set_totalDays n st
  | SetEditingTask e => set_editingTask e st
  | AddTask idNow createdNow => addTask idNow createdNow st
  | UpdateTask taskId updates => updateTask taskId updates st
  | RemoveTask taskId => removeTask taskId st
  | ToggleTaskCompletion taskId date => toggleTaskCompletion taskId date st
  end.

(** Which of the two save effects an action fires: the one whose dependency
    ([tasks], [dailyCompletion]) the handler replaced. *)
Definition setsTasks (ev : Event) (st : State) : bool :=
  match ev with
  | AddTask _ _ => JS.truthy (JS.trim (newTaskName st))
  | UpdateTask _ _ | RemoveTask _ => true
  | _ => false
  end.

Definition setsDailyCompletion (ev : Event) : bool :=
  match ev with
  | RemoveTask _ | ToggleTaskCompletion _ _ => true
  | _ => false
  end.

(** One action followed by the effects of the render it causes. *)
Definition step (ev : Event) (sd : State * DB) : State * DB :=
  let '(st, db) := sd in
  let st' := handle ev st in
  let db := if setsTasks ev st then saveTasksEffect st' db else db in
  let db := if setsDailyCompletion ev then saveCompletionsEffect st' db else db in
  (st', db).

Definition run (evs : list Event) (sd : State * DB) : State * DB :=
  foldl (fun sd ev => step ev sd) sd evs.

(** ** StatsEngine: the derived statistics *)

(** [endDate] and [startDate] are two [new Date()] of one call; both are
    the reading [now]. *)
Definition getTaskCompletionRate (fuel : nat) (now : Date) (taskId : Z)
    (st : State) : option JS.number :=
  let endDate := now in
  let startDate := addDays now (- totalDays st + 1) in
  completedCount ←
    for_dates fuel startDate endDate
      (fun d completedCount =>
         if isCompleted (dailyCompletion st) (dateStr d) taskId
         then completedCount + 1 else completedCount)
      0;
  Some (JS.percent completedCount (totalDays st)).

(** The loop of [getStreak]: [n] iterations are left, [i] is the counter. *)
Fixpoint getStreak_loop (n : nat) (i streak : Z) (today : Date) (taskId : Z)
    (dc : CompletionLog) : Z :=
  match n with
  | O => streak
  | S n' =>
      let date := addDays today (- i) in
      if isCompleted dc (dateStr date) taskId
      then getStreak_loop n' (i + 1) (streak + 1) today taskId dc
      else streak
  end.

Definition getStreak (now : Date) (taskId : Z) (st : State) : Z :=
  getStreak_loop 30 0 0 now taskId (dailyCompletion st).

(** An entry of the weekly summary.  [startDate] and [endDate] are kept as
    dates; the source stores their [toLocaleDateString()]. *)
Record Week : Type := mkWeek {
  week : string;
  completion : JS.number;
  startDate : Date;
  endDate : Date
}.

(** The counters of one period: [(totalCompletions, totalPossible)] after
    the date loop with its inner [tasks.forEach]. *)
Definition periodTotals (fuel : nat) (periodStart periodEnd : Date)
    (st : State) : option (Z * Z) :=
  for_dates fuel periodStart periodEnd
    (fun d totals =>
       foldl (fun '(totalCompletions, totalPossible) task =>
                let totalPossible := totalPossible + 1 in
                if isCompleted (dailyCompletion st) (dateStr d) (id task)
                then (totalCompletions + 1, totalPossible)
                else (totalCompletions, totalPossible))
             totals (tasks st))
    (0, 0).

(** [totalPossible > 0 ? Math.round((totalCompletions / totalPossible) * 100) : 0] *)
Definition periodCompletion (totals : Z * Z) : JS.number :=
  let '(totalCompletions, totalPossible) := totals in
  if 0 <? totalPossible then JS.percent totalCompletions totalPossible
  else JS.of_Z 0.

Definition weekLabel (k : Z) : string :=
  ("Week " ++ String (ascii_of_N (48 + Z.to_N k)) "")%string.

(** The loop of [getWeeklySummary]: [n] iterations are left, [i] is the
    counter, [weeks] the array built so far. *)
Fixpoint getWeeklySummary_loop (n : nat) (i : Z) (weeks : list Week)
    (fuel : nat) (today : Date) (st : State) : option (list Week) :=
  match n with
  | O => Some weeks
  | S n' =>
      let weekEnd := addDays today (- (i * 7)) in
      let weekStart := addDays weekEnd (- 6) in
      totals ← periodTotals fuel weekStart weekEnd st;
      getWeeklySummary_loop n' (i + 1)
        (weeks ++ [ {| week := weekLabel (4 - i);
                       completion := periodCompletion totals;
                       startDate := weekStart;
                       endDate := weekEnd |} ])
        fuel today st
  end.

Definition getWeeklySummary (fuel : nat) (now : Date) (st : State)
    : option (list Week) :=
  weeks ← getWeeklySummary_loop 4 0 [] fuel now st;
  Some (rev weeks).

(** ** Vocabulary of the statements *)

(** The integer nearest to [a / b] for [0 < b], a tie going up:
    [floor (a / b + 1/2)]. *)
Definition roundHalfUp (a b : Z) : Z := (2 * a + b) / (2 * b).

(** The [n] day keys from [first] on. *)
Definition daysFrom (first : Z) (n : nat) : list Z :=
  map (fun i : nat => first + Z.of_nat i) (seq 0 n).

(** How many of the days [first .. first + n - 1] the log marks complete
    for a task. *)
Definition completedDaysIn (dc : CompletionLog) (taskId first : Z) (n : nat) : Z :=
  Z.of_nat (length (filter (fun day => isCompleted dc day taskId = true) (daysFrom first n))).

(** How many (day, task) slots of the days [first .. first + n - 1] and the
    tasks [ts] the log marks complete. *)
Definition completedSlotsIn (dc : CompletionLog) (ts : list Task) (first : Z)
    (n : nat) : Z :=
  Z.of_nat (length (filter (fun p : Z * Task => isCompleted dc p.1 (id p.2) = true)
                           (list_prod (daysFrom first n) ts))).

(** The ids of the task collection. *)
Definition ids (ts : list Task) : list Z := map id ts.

(** Higher priorities first. *)
Definition sortedByPriority (ts : list Task) : Prop :=
  StronglySorted
    (fun a b => priorityOrder (priority b) <= priorityOrder (priority a)) ts.

(** The iterates of a date loop: [n] dates, one day apart. *)
Fixpoint datesFrom (d : Date) (n : nat) : list Date :=
  match n with
  | O => []
  | S n' => d :: datesFrom (addDays d 1) n'
  end.

#[global] Instance Priority_eq_dec : EqDecision Priority.
Proof. solve_decision. Defined.

#[global] Instance number_eq_dec : EqDecision JS.number.
Proof. unfold JS.number. solve_decision. Defined.

(** The log has a bucket for a date, and an entry for a (date, task) pair. *)
Definition hasBucket (dc : CompletionLog) (date : Z) : Prop :=
  is_Some (dc !! date).

Definition hasEntry (dc : CompletionLog) (date taskId : Z) : Prop :=
  exists bucket, dc !! date = Some bucket /\ is_Some (bucket !! taskId).



(** The [completions] store is in key order and every record is stored
    under its own [id]. *)
Definition completionsStoreOk (s : list (Z * Completion)) : Prop :=
  StronglySorted Z.lt (s.*1)
  /\ Forall (fun kr => completion_id kr.2 = kr.1) s.

(** The log that the records of the [completions] store hold. *)
Definition storedLog (s : list (Z * Completion)) : CompletionLog :=
  completion_data <$> (list_to_map s : gmap Z Completion).

(** Two logs give every (date, task) pair the same completion value. *)
Definition sameCompletions (dc dc' : CompletionLog) : Prop :=
  forall date taskId, isCompleted dc date taskId = isCompleted dc' date taskId.

(** [p * 2 ^ k] for [0 <= k]. *)
Definition shiftl_pos (p : positive) (k : Z) : positive :=
  match k with Zpos k' => Pos.iter xO p k' | _ => p end.

(** The completion rate of a task as a whole number, and the sum of the
    rates of a list of tasks. *)
Definition completionRateOf (now : Date) (st : State) (taskId : Z) : Z :=
  roundHalfUp
    (100 * completedDaysIn (dailyCompletion st) taskId
             (dateStr now - totalDays st + 1) (Z.to_nat (totalDays st)))
    (totalDays st).

Definition sumRates (now : Date) (st : State) (ts : list Task) : Z :=
  foldr (fun task sum => completionRateOf now st (id task) + sum) 0 ts.

(** The [tasks] store is in key order and every task is stored under its
    own [id]. *)
Definition tasksStoreOk (s : list (Z * Task)) : Prop :=
  StronglySorted Z.lt (s.*1)
  /\ Forall (fun kr => id kr.2 = kr.1) s.

(** An action that removes no task and adds none under an id that is in
    use. *)
Definition keepsTasks (ev : Event) (st : State) : Prop :=
  match ev with
  | AddTask idNow _ => idNow ∉ ids (tasks st)
  | RemoveTask taskId => taskId ∉ ids (tasks st)
  | _ => True
  end.

Fixpoint keepsTasksAll (evs : list Event) (sd : State * DB) : Prop :=
  match evs with
  | [] => True
  | ev :: evs' => keepsTasks ev sd.1 /\ keepsTasksAll evs' (step ev sd)
  end.

(** The tasks of a list under their ids. *)
Definition tasksById (ts : list Task) : gmap Z Task :=
  list_to_map (map (fun task => (id task, task)) ts).

(** The [tasks] store holds the tasks of the state, each once. *)
Definition tasksInSync (sd : State * DB) : Prop :=
  NoDup (ids (tasks sd.1))
  /\ tasksStoreOk (tasksStore sd.2)
  /\ (list_to_map (tasksStore sd.2) : gmap Z Task) = tasksById (tasks sd.1).

(** ** The other statistics and views of the component *)

(** [x + y] on numbers. *)
Definition js_add (x y : JS.number) : JS.number := SFadd JS.prec JS.emax x y.

(** [getPeriodDates]: the dates of the columns of the Daily History grid,
    which the view reverses.  As in [getTaskCompletionRate], the two
    [new Date()] of the call are the reading [now]. *)
Definition getPeriodDates (fuel : nat) (now : Date) (st : State)
    : option (list Date) :=
  let endDate := now in
  let startDate := addDays now (- totalDays st + 1) in
  for_dates fuel startDate endDate (fun d dates => dates ++ [d]) [].

(** [ts.reduce((sum, task) => sum + getTaskCompletionRate(task.id), sum0)] *)
Fixpoint sumCompletionRates (fuel : nat) (now : Date) (st : State)
    (sum : JS.number) (ts : list Task) : option JS.number :=
  match ts with
  | [] => Some sum
  | task :: ts' =>
      rate ← getTaskCompletionRate fuel now (id task) st;
      sumCompletionRates fuel now st (js_add sum rate) ts'
  end.

Definition getOverallScore (fuel : nat) (now : Date) (st : State)
    : option JS.number :=
  if (length (tasks st) =? 0)%nat then Some (JS.of_Z 0)
  else
    totalCompletion ← sumCompletionRates fuel now st (JS.of_Z 0) (tasks st);
    Some (JS.Math_round
            (JS.div totalCompletion (JS.of_Z (Z.of_nat (length (tasks st)))))).

(** The Best Streak card:
    [Math.max(...tasks.map(task => getStreak(task.id)), 0)]. *)
Definition bestStreak (now : Date) (st : State) : Z :=
  foldr Z.max 0 (map (fun task => getStreak now (id task) st) (tasks st)).

(** One cell of the Priority Breakdown panel: the average and the number
    of the tasks of a priority. *)
Record PriorityStat : Type := mkPriorityStat {
  stat_priority : Priority;
  avgCompletion : JS.number;
  taskCount : nat
}.

Definition priorityStat (fuel : nat) (now : Date) (st : State) (p : Priority)
    : option PriorityStat :=
  let priorityTasks := filter (fun task => priority task = p) (tasks st) in
  avgCompletion ←
    (if (0 <? length priorityTasks)%nat then
       total ← sumCompletionRates fuel now st (JS.of_Z 0) priorityTasks;
       Some (JS.Math_round
               (JS.div total (JS.of_Z (Z.of_nat (length priorityTasks)))))
     else Some (JS.of_Z 0));
  Some {| stat_priority := p; avgCompletion := avgCompletion;
          taskCount := length priorityTasks |}.

(** [['high', 'medium', 'low'].map(priority => ...)] *)
Definition priorityBreakdown (fuel : nat) (now : Date) (st : State)
    : option (list PriorityStat) :=
  mapM (priorityStat fuel now st) [high; medium; low].

(** ** The calendar of [Date], and the monthly summary *)

(** [DayFromYear(y)] of ECMAScript: the day number of 1 January of [y]. *)
Definition DayFromYear (y : Z) : Z :=
  365 * (y - 1970) + (y - 1969) / 4 - (y - 1901) / 100 + (y - 1601) / 400.

Definition InLeapYear (y : Z) : bool :=
  ((y mod 4 =? 0) && negb (y mod 100 =? 0)) || (y mod 400 =? 0).

(** The day within the year on which month [m] (0 .. 11) starts. *)
Definition monthStartInYear (leap : bool) (m : Z) : Z :=
  let l := if leap then 1 else 0 in
  match m with
  | 0 => 0 | 1 => 31 | 2 => 59 + l | 3 => 90 + l | 4 => 120 + l | 5 => 151 + l
  | 6 => 181 + l | 7 => 212 + l | 8 => 243 + l | 9 => 273 + l | 10 => 304 + l
  | _ => 334 + l
  end.

(** [MakeDay(year, month, date)]: months outside 0 .. 11 carry into the
    year, and dates outside the month into the neighbouring months. *)
Definition MakeDay (year month date : Z) : Z :=
  let ym := year + month / 12 in
  let mn := month mod 12 in
  DayFromYear ym + monthStartInYear (InLeapYear ym) mn + date - 1.

(** [YearFromTime] and [MonthFromTime], on day numbers. *)
Definition YearFromDay (day : Z) : Z :=
  let y := 1970 + (day * 400) / 146097 in
  if DayFromYear (y + 1) <=? day then y + 1
  else if day <? DayFromYear y then y - 1
  else y.

Definition MonthFromDay (day : Z) : Z :=
  let y := YearFromDay day in
  let leap := InLeapYear y in
  let dayWithinYear := day - DayFromYear y in
  if dayWithinYear <? monthStartInYear leap 1 then 0
  else if dayWithinYear <? monthStartInYear leap 2 then 1
  else if dayWithinYear <? monthStartInYear leap 3 then 2
  else if dayWithinYear <? monthStartInYear leap 4 then 3
  else if dayWithinYear <? monthStartInYear leap 5 then 4
  else if dayWithinYear <? monthStartInYear leap 6 then 5
  else if dayWithinYear <? monthStartInYear leap 7 then 6
  else if dayWithinYear <? monthStartInYear leap 8 then 7
  else if dayWithinYear <? monthStartInYear leap 9 then 8
  else if dayWithinYear <? monthStartInYear leap 10 then 9
  else if dayWithinYear <? monthStartInYear leap 11 then 10
  else 11.

(** Local time.  [tz] is the offset of the local time zone from UTC in
    milliseconds, the same at every date (no daylight-saving shift). *)
Definition localDay (tz : Z) (d : Date) : Z := (d + tz) / msPerDay.

Definition getFullYear (tz : Z) (d : Date) : Z := YearFromDay (localDay tz d).

Definition getMonth (tz : Z) (d : Date) : Z := MonthFromDay (localDay tz d).

(** The year that the [Date] constructor takes for a year argument: a
    year from 0 to 99 stands for 1900 + year. *)
Definition constructorYear (year : Z) : Z :=
  if (0 <=? year) && (year <=? 99) then 1900 + year else year.

(** [new Date(year, month, date)]: local midnight of that day. *)
Definition newDate (tz year month date : Z) : Date :=
  MakeDay (constructorYear year) month date * msPerDay - tz.

(** An entry of the monthly summary.  [month] is kept as the date of the
    first of the month; the source stores its
    [toLocaleDateString('en-US', { month: 'long', year: 'numeric' })]. *)
Record Month : Type := mkMonth {
  month : Date;
  month_completion : JS.number
}.

(** The loop of [getMonthlySummary]: [n] iterations are left, [i] is the
    counter, [months] the array built so far. *)
Fixpoint getMonthlySummary_loop (n : nat) (i : Z) (months : list Month)
    (fuel : nat) (tz : Z) (today : Date) (st : State) : option (list Month) :=
  match n with
  | O => Some months
  | S n' =>
      let monthDate := newDate tz (getFullYear tz today) (getMonth tz today - i) 1 in
      let monthEnd := newDate tz (getFullYear tz today) (getMonth tz today - i + 1) 0 in
      totals ← periodTotals fuel monthDate monthEnd st;
      getMonthlySummary_loop n' (i + 1)
        (months ++ [ {| month := monthDate;
                        month_completion := periodCompletion totals |} ])
        fuel tz today st
  end.

Definition getMonthlySummary (fuel : nat) (tz : Z) (now : Date) (st : State)
    : option (list Month) :=
  months ← getMonthlySummary_loop 3 0 [] fuel tz now st;
  Some (rev months).

(** The number of days of month [mn] (0 .. 11). *)
Definition daysInMonth (leap : bool) (mn : Z) : Z :=
  match mn with
  | 1 => if leap then 29 else 28
  | 3 | 5 | 8 | 10 => 30
  | _ => 31
  end.

(** The month that lies [i] months before the one of today: the local day
    number of its first day, its number of days, and its entry of the
    summary, which counts the [monthDays] day keys from the key of its
    [month] date on. *)
Definition monthFirst (tz : Z) (now : Date) (i : Z) : Z :=
  MakeDay (constructorYear (getFullYear tz now)) (getMonth tz now - i) 1.

Definition monthDays (tz : Z) (now : Date) (i : Z) : Z :=
  daysInMonth
    (InLeapYear (constructorYear (getFullYear tz now) + (getMonth tz now - i) / 12))
    ((getMonth tz now - i) mod 12).

Definition monthBefore (tz : Z) (now : Date) (st : State) (i : Z) : Month :=
  let monthDate := newDate tz (getFullYear tz now) (getMonth tz now - i) 1 in
  {| month := monthDate;
     month_completion :=
       periodCompletion
         (completedSlotsIn (dailyCompletion st) (tasks st)
            (dateStr monthDate) (Z.to_nat (monthDays tz now i)),
          monthDays tz now i * Z.of_nat (length (tasks st))) |}.
(** ** States of the examples *)

(** One task with id 1, completed on days 15, 18 and 20. *)
Definition threeOfSeven : State :=
  toggleTaskCompletion 1 20 (toggleTaskCompletion 1 18 (toggleTaskCompletion 1 15
    (addTask 1 1 (set_newTaskName (JS.of_ascii "read") initialState)))).

(** One task with id 1, completed on days 17, 19 and 20. *)
Definition twoDayStreak : State :=
  toggleTaskCompletion 1 20 (toggleTaskCompletion 1 19 (toggleTaskCompletion 1 17
    (addTask 1 1 (set_newTaskName (JS.of_ascii "read") initialState)))).

(** The state [threeOfSeven] with a high-priority task typed in. *)
Definition typingHigh : State :=
  set_newTaskPriority high (set_newTaskName (JS.of_ascii " write ") threeOfSeven).

(** A session on an empty store: two tasks are added and the first one is
    removed. *)
Definition removalSession : State * DB :=
  run [SetNewTaskName (JS.of_ascii "a"); AddTask 1 1;
       SetNewTaskName (JS.of_ascii "b"); AddTask 2 2;
       RemoveTask 1]
      (initialState, emptyDB).

(** A session on an empty store: a task is added and removed. *)
Definition lastTaskSession : State * DB :=
  run [SetNewTaskName (JS.of_ascii "a"); AddTask 1 1; RemoveTask 1]
      (initialState, emptyDB).

(** Two tasks are added and toggled on two days, and the first is removed. *)
Definition toggleEvents : list Event :=
  [SetNewTaskName (JS.of_ascii "a"); AddTask 1 1;
   SetNewTaskName (JS.of_ascii "b"); AddTask 2 2;
   ToggleTaskCompletion 1 19; ToggleTaskCompletion 2 19;
   ToggleTaskCompletion 2 20; ToggleTaskCompletion 2 20;
   RemoveTask 1].


(** ** Dates and the date loop *)

Lemma addDays_0 d : addDays d 0 = d.
Proof. unfold addDays. lia. Qed.

Lemma addDays_addDays d j k : addDays (addDays d j) k = addDays d (j + k).
Proof. unfold addDays. lia. Qed.

Lemma dateStr_addDays d k : dateStr (addDays d k) = dateStr d + k.
Proof. unfold dateStr, addDays, msPerDay. apply Z.div_add. discriminate. Qed.

Lemma dateStr_datesFrom n : forall d,
  map dateStr (datesFrom d n) = daysFrom (dateStr d) n.
Proof.
  unfold daysFrom. induction n as [|n IH]; intros d; [reflexivity|].
  simpl. rewrite IH, dateStr_addDays, <- seq_shift, map_map.
  f_equal; [lia|]. apply map_ext. intros i. lia.
Qed.

(** A date loop that starts [n - 1] days or less before its end date, and
    more than [n - 2], runs its body on [n] dates and stops, given fuel for
    [n + 1] tests of its condition. *)
Lemma for_dates_datesFrom {A} (body : Date -> A -> A) endDate n :
  forall fuel d acc,
    (n < fuel)%nat ->
    endDate < addDays d (Z.of_nat n) ->
    (n = 0%nat \/ addDays d (Z.of_nat n - 1) <= endDate) ->
    for_dates fuel d endDate body acc
    = Some (foldl (fun a x => body x a) acc (datesFrom d n)).
Proof.
  induction n as [|n IH]; intros fuel d acc Hfuel Hend Hlast.
  - destruct fuel as [|fuel]; [lia|]. simpl.
    rewrite addDays_0 in Hend.
    destruct (Z.leb_spec d endDate); [lia|reflexivity].
  - destruct fuel as [|fuel]; [lia|]. simpl.
    destruct Hlast as [Hlast|Hlast]; [discriminate|].
    assert (d <= endDate) as Hd.
    { unfold addDays, msPerDay in Hlast. lia. }
    destruct (Z.leb_spec d endDate); [|lia].
    apply IH; [lia| |].
    + rewrite addDays_addDays. replace (1 + Z.of_nat n) with (Z.of_nat (S n)) by lia.
      exact Hend.
    + destruct n as [|n]; [left; reflexivity|right].
      rewrite addDays_addDays.
      replace (1 + (Z.of_nat (S n) - 1)) with (Z.of_nat (S (S n)) - 1) by lia.
      exact Hlast.
Qed.

Lemma foldl_count {A} (P : A -> bool) (l : list A) : forall acc : Z,
  foldl (fun c x => if P x then c + 1 else c) acc l
  = acc + Z.of_nat (length (filter (fun x => P x = true) l)).
Proof.
  induction l as [|x l IH]; intros acc; simpl; [lia|].
  rewrite IH. rewrite filter_cons. destruct (P x) eqn:HP.
  - rewrite decide_True by reflexivity. simpl. lia.
  - rewrite decide_False by discriminate. lia.
Qed.

Lemma length_filter_map {A B} (f : A -> B) (P : B -> Prop)
    `{!forall x, Decision (P x)} (l : list A) :
  length (filter P (map f l)) = length (filter (fun x => P (f x)) l).
Proof.
  induction l as [|x l IH]; [reflexivity|].
  simpl. rewrite !filter_cons. destruct (decide (P (f x))); simpl; congruence.
Qed.

Lemma length_datesFrom n : forall d, length (datesFrom d n) = n.
Proof. induction n as [|n IH]; intros d; simpl; [reflexivity|]. rewrite IH. reflexivity. Qed.

(** ** C1: the completion rate *)

(** Up to a total of 39 the binary64 computation of the percentage is the
    exact quotient rounded half up. *)
Lemma percent_exact_table :
  Forall (fun n : nat =>
            Forall (fun c : nat =>
                      JS.percent (Z.of_nat c) (Z.of_nat n)
                      = JS.of_Z (roundHalfUp (100 * Z.of_nat c) (Z.of_nat n)))
                   (seq 0 (S n)))
         (seq 1 39).
Proof. apply (bool_decide_eq_true_1 _). vm_compute. reflexivity. Qed.

Lemma percent_exact c n :
  1 <= n <= 39 -> 0 <= c <= n ->
  JS.percent c n = JS.of_Z (roundHalfUp (100 * c) n).
Proof.
  intros Hn Hc.
  pose proof percent_exact_table as H.
  rewrite Forall_forall in H.
  specialize (H (Z.to_nat n)).
  rewrite Forall_forall in H.
  specialize (fun Hin => H Hin (Z.to_nat c)).
  rewrite !Z2Nat.id in H by lia.
  apply H; apply elem_of_seq; lia.
Qed.

(** Beyond that it is not: 23 of 40 is 57.5, and the product of the
    binary64 quotient with 100 lies just below it. *)
Example percent_23_of_40 :
  JS.percent 23 40 = JS.of_Z 57 /\ roundHalfUp (100 * 23) 40 = 58.
Proof. split; vm_compute; reflexivity. Qed.

Lemma completedDaysIn_bounds dc taskId first n :
  0 <= completedDaysIn dc taskId first n <= Z.of_nat n.
Proof.
  unfold completedDaysIn. split; [lia|].
  apply inj_le. etransitivity; [apply length_filter|].
  unfold daysFrom. rewrite length_map, length_seq. reflexivity.
Qed.

(** The loop of [getTaskCompletionRate] counts the completed days of the
    window, for every window length. *)
Lemma getTaskCompletionRate_count fuel now taskId st :
  (Z.to_nat (totalDays st) < fuel)%nat ->
  getTaskCompletionRate fuel now taskId st
  = Some (JS.percent
            (completedDaysIn (dailyCompletion st) taskId
               (dateStr now - totalDays st + 1) (Z.to_nat (totalDays st)))
            (totalDays st)).
Proof.
  intros Hfuel. unfold getTaskCompletionRate.
  rewrite (for_dates_datesFrom _ _ (Z.to_nat (totalDays st))).
  - simpl. do 2 f_equal.
    rewrite (foldl_count (fun d => isCompleted (dailyCompletion st) (dateStr d) taskId)).
    unfold completedDaysIn.
    replace (dateStr now - totalDays st + 1)
      with (dateStr (addDays now (- totalDays st + 1)))
      by (rewrite dateStr_addDays; lia).
    rewrite <- dateStr_datesFrom, length_filter_map. reflexivity.
  - exact Hfuel.
  - rewrite addDays_addDays. unfold addDays, msPerDay. lia.
  - destruct (Z.to_nat (totalDays st)) eqn:E; [left; reflexivity|right].
    rewrite addDays_addDays. unfold addDays, msPerDay. lia.
Qed.




(** X2: the same rounding in a period summary: with 40 tasks and 161 of the 280
    slots of a week completed, the percentage is 57, not the 58 of the exact
    57.5 rounded half up. *)
Example periodCompletion_161_of_280 :
  periodCompletion (161, 280) = JS.of_Z 57
  /\ roundHalfUp (100 * 161) 280 = 58.
Proof. split; vm_compute; reflexivity. Qed.

(** ** C3: the streak *)

(** What the loop of [getStreak] adds to the streak in its remaining [n]
    iterations: the days it counted are complete, and it stopped either at
    an incomplete day or after its last iteration. *)
Lemma getStreak_loop_spec today taskId dc n : forall i streak,
  let r := getStreak_loop n i streak today taskId dc in
  streak <= r <= streak + Z.of_nat n
  /\ (forall j, i <= j < i + (r - streak) ->
        isCompleted dc (dateStr today - j) taskId = true)
  /\ (r - streak < Z.of_nat n ->
        isCompleted dc (dateStr today - (i + (r - streak))) taskId = false).
Proof.
  induction n as [|n IH]; intros i streak; simpl.
  - repeat split; intros; lia.
  - rewrite dateStr_addDays.
    replace (dateStr today + - i) with (dateStr today - i) by lia.
    destruct (isCompleted dc (dateStr today - i) taskId) eqn:Hi.
    + specialize (IH (i + 1) (streak + 1)). simpl in IH.
      destruct IH as (Hb & Hall & Hstop).
      set (r := getStreak_loop n (i + 1) (streak + 1) today taskId dc) in *.
      split; [lia|]. split.
      * intros j Hj. destruct (decide (j = i)) as [->|Hne]; [exact Hi|].
        apply Hall. lia.
      * intros Hlt.
        replace (i + (r - streak)) with (i + 1 + (r - (streak + 1))) by lia.
        apply Hstop. lia.
    + split; [lia|]. split.
      * intros j Hj. lia.
      * intros _. replace (i + (streak - streak)) with i by lia. exact Hi.
Qed.



(** ** The completion log under [toggleTaskCompletion] and [removeTask] *)

Lemma toggleTaskCompletion_lookup taskId date st :
  dailyCompletion (toggleTaskCompletion taskId date st) !! date
  = Some (<[taskId := negb (isCompleted (dailyCompletion st) date taskId)]>
            (default ∅ (dailyCompletion st !! date))).
Proof.
  unfold toggleTaskCompletion, isCompleted. simpl.
  destruct (dailyCompletion st !! date) as [bucket|] eqn:Hd.
  - rewrite Hd. simpl. rewrite lookup_insert_eq. reflexivity.
  - rewrite !lookup_insert_eq. simpl. rewrite lookup_empty. reflexivity.
Qed.

Lemma toggleTaskCompletion_lookup_ne taskId date date' st :
  date <> date' ->
  dailyCompletion (toggleTaskCompletion taskId date st) !! date'
  = dailyCompletion st !! date'.
Proof.
  intros Hne. unfold toggleTaskCompletion. simpl.
  rewrite lookup_insert_ne by exact Hne.
  destruct (dailyCompletion st !! date); [reflexivity|].
  rewrite lookup_insert_ne by exact Hne. reflexivity.
Qed.

Lemma isCompleted_toggle taskId date st :
  isCompleted (dailyCompletion (toggleTaskCompletion taskId date st)) date taskId
  = negb (isCompleted (dailyCompletion st) date taskId).
Proof.
  unfold isCompleted at 1. rewrite toggleTaskCompletion_lookup.
  rewrite lookup_insert_eq. reflexivity.
Qed.

Lemma isCompleted_toggle_other taskId date taskId' date' st :
  (date', taskId') <> (date, taskId) ->
  isCompleted (dailyCompletion (toggleTaskCompletion taskId date st)) date' taskId'
  = isCompleted (dailyCompletion st) date' taskId'.
Proof.
  intros Hne. destruct (decide (date = date')) as [<-|Hd].
  - assert (taskId <> taskId') as Ht by congruence.
    unfold isCompleted. rewrite toggleTaskCompletion_lookup.
    rewrite lookup_insert_ne by exact Ht.
    destruct (dailyCompletion st !! date); simpl; [reflexivity|].
    rewrite lookup_empty. reflexivity.
  - unfold isCompleted. rewrite toggleTaskCompletion_lookup_ne by exact Hd.
    reflexivity.
Qed.

Lemma removeTask_lookup taskId date st :
  dailyCompletion (removeTask taskId st) !! date
  = delete taskId <$> dailyCompletion st !! date.
Proof. unfold removeTask. simpl. apply lookup_fmap. Qed.

(** C4: toggling a (task, date) pair twice restores its completion value,
    absence read as false; every other pair keeps its value as well, and
    the task list is not touched. *)
Theorem toggleTaskCompletion_twice taskId date st :
  let st2 := toggleTaskCompletion taskId date (toggleTaskCompletion taskId date st) in
  isCompleted (dailyCompletion st2) date taskId
  = isCompleted (dailyCompletion st) date taskId
  /\ (forall date' taskId',
        isCompleted (dailyCompletion st2) date' taskId'
        = isCompleted (dailyCompletion st) date' taskId')
  /\ tasks st2 = tasks st.
Proof.
  intros st2.
  assert (isCompleted (dailyCompletion st2) date taskId
          = isCompleted (dailyCompletion st) date taskId) as Hsame.
  { unfold st2. rewrite !isCompleted_toggle. apply negb_involutive. }
  split; [exact Hsame|]. split; [|reflexivity].
  intros date' taskId'.
  destruct (decide ((date', taskId') = (date, taskId))) as [Heq|Hne].
  - injection Heq as -> ->. exact Hsame.
  - unfold st2. rewrite !isCompleted_toggle_other by exact Hne. reflexivity.
Qed.

(** C7 as stated fails: no task has id 1 in the initial state, and the
    toggle writes the entry all the same. *)
Lemma toggleTaskCompletion_unknown_id :
  ids (tasks initialState) = []
  /\ dailyCompletion (toggleTaskCompletion 1 0 initialState)
     <> dailyCompletion initialState
  /\ isCompleted (dailyCompletion (toggleTaskCompletion 1 0 initialState)) 0 1 = true.
Proof.
  split; [reflexivity|]. split; [|reflexivity].
  intros H. apply (f_equal (fun dc => dc !! 0)) in H.
  rewrite toggleTaskCompletion_lookup in H. discriminate.
Qed.

(** C7 (amended): [toggleTaskCompletion] does not look at the task list.
    For every id, of an existing task or not, it flips the entry of the
    (date, id) pair, in a bucket that exists afterwards, and leaves the
    tasks and every other pair as they were. *)
Theorem toggleTaskCompletion_any_id taskId date st :
  let st' := toggleTaskCompletion taskId date st in
  tasks st' = tasks st
  /\ (exists bucket,
        dailyCompletion st' !! date = Some bucket
        /\ bucket !! taskId = Some (negb (isCompleted (dailyCompletion st) date taskId)))
  /\ isCompleted (dailyCompletion st') date taskId
     = negb (isCompleted (dailyCompletion st) date taskId)
  /\ (forall date' taskId', (date', taskId') <> (date, taskId) ->
        isCompleted (dailyCompletion st') date' taskId'
        = isCompleted (dailyCompletion st) date' taskId').
Proof.
  intros st'. split; [reflexivity|]. split.
  - eexists. split; [apply toggleTaskCompletion_lookup|]. apply lookup_insert_eq.
  - split; [apply isCompleted_toggle|].
    intros date' taskId' Hne. apply isCompleted_toggle_other. exact Hne.
Qed.

Lemma toggleTaskCompletion_any_id_witness :
  isCompleted (dailyCompletion (toggleTaskCompletion 7 20 twoDayStreak)) 19 1
  = isCompleted (dailyCompletion twoDayStreak) 19 1.
Proof.
  refine (proj2 (proj2 (proj2 (toggleTaskCompletion_any_id 7 20 twoDayStreak))) 19 1 _).
  discriminate.
Defined.

(** ** C10: buckets and entries of the log persist *)

Lemma handle_hasBucket ev st date :
  hasBucket (dailyCompletion st) date ->
  hasBucket (dailyCompletion (handle ev st)) date.
Proof.
  unfold hasBucket. intros Hb.
  destruct ev as [s|p|n|e|idNow createdNow|taskId updates|taskId|taskId date'];
    cbn [handle]; try exact Hb.
  - unfold addTask. destruct (JS.truthy _); exact Hb.
  - rewrite removeTask_lookup. destruct Hb as [bucket ->]. simpl. eauto.
  - destruct (decide (date' = date)) as [->|Hne].
    + rewrite toggleTaskCompletion_lookup. eauto.
    + rewrite toggleTaskCompletion_lookup_ne by exact Hne. exact Hb.
Qed.

Lemma handle_hasEntry ev st date taskId :
  ev <> RemoveTask taskId ->
  hasEntry (dailyCompletion st) date taskId ->
  hasEntry (dailyCompletion (handle ev st)) date taskId.
Proof.
  unfold hasEntry. intros Hev (bucket & Hb & He).
  destruct ev as [s|p|n|e|idNow createdNow|taskId' updates|taskId'|taskId' date'];
    cbn [handle]; try (exists bucket; split; assumption).
  - unfold addTask. destruct (JS.truthy _); exists bucket; split; assumption.
  - assert (taskId' <> taskId) as Hne by congruence.
    exists (delete taskId' bucket). rewrite removeTask_lookup, Hb. split; [reflexivity|].
    rewrite lookup_delete_ne by exact Hne. exact He.
  - destruct (decide (date' = date)) as [->|Hne].
    + eexists. split; [apply toggleTaskCompletion_lookup|].
      rewrite Hb. simpl.
      destruct (decide (taskId' = taskId)) as [->|Hne].
      * rewrite lookup_insert_eq. eauto.
      * rewrite lookup_insert_ne by exact Hne. exact He.
    + exists bucket. rewrite toggleTaskCompletion_lookup_ne by exact Hne.
      split; assumption.
Qed.

Lemma run_cons ev evs sd : run (ev :: evs) sd = run evs (step ev sd).
Proof. reflexivity. Qed.

Lemma fst_step ev sd : (step ev sd).1 = handle ev sd.1.
Proof. destruct sd as [st db]. reflexivity. Qed.

(** C10: through every sequence of actions a date bucket of the log stays,
    and so does the entry of a (date, task) pair unless the task is removed.
    Toggling a completed pair off stores an explicit [false], and removing
    the only task of a bucket leaves the date with an empty bucket. *)
Theorem completion_log_persists evs sd date taskId :
  (hasBucket (dailyCompletion sd.1) date ->
   hasBucket (dailyCompletion (run evs sd).1) date)
  /\ (RemoveTask taskId ∉ evs ->
      hasEntry (dailyCompletion sd.1) date taskId ->
      hasEntry (dailyCompletion (run evs sd).1) date taskId)
  /\ (isCompleted (dailyCompletion sd.1) date taskId = true ->
      exists bucket,
        dailyCompletion (toggleTaskCompletion taskId date sd.1) !! date = Some bucket
        /\ bucket !! taskId = Some false)
  /\ (forall b, dailyCompletion sd.1 !! date = Some {[ taskId := b ]} ->
      dailyCompletion (removeTask taskId sd.1) !! date = Some ∅).
Proof.
  split; [|split; [|split]].
  - revert sd. induction evs as [|ev evs IH]; intros sd Hb; [exact Hb|].
    rewrite run_cons. apply IH. rewrite fst_step. apply handle_hasBucket, Hb.
  - revert sd. induction evs as [|ev evs IH]; intros sd Hnot He; [exact He|].
    rewrite run_cons. apply IH.
    + intros Hin. apply Hnot. right. exact Hin.
    + rewrite fst_step. apply handle_hasEntry; [|exact He].
      intros ->. apply Hnot. left.
  - intros Hc. eexists. split; [apply toggleTaskCompletion_lookup|].
    rewrite Hc. apply lookup_insert_eq.
  - intros b Hb. rewrite removeTask_lookup, Hb. simpl.
    rewrite delete_singleton_eq. reflexivity.
Qed.

Lemma completion_log_persists_witness :
  hasBucket
    (dailyCompletion
       (run [ToggleTaskCompletion 1 20; RemoveTask 1; SetTotalDays 14]
            (twoDayStreak, emptyDB)).1) 19.
Proof.
  refine (proj1 (completion_log_persists
                   [ToggleTaskCompletion 1 20; RemoveTask 1; SetTotalDays 14]
                   (twoDayStreak, emptyDB) 19 1) _).
  unfold hasBucket. vm_compute. eauto.
Defined.

(** ** The counters of a period *)

Lemma foldl_slots_tasks (dc : CompletionLog) (day : Z) (ts : list Task) :
  forall totalCompletions totalPossible,
    foldl (fun '(totalCompletions, totalPossible) task =>
             let totalPossible := totalPossible + 1 in
             if isCompleted dc day (id task)
             then (totalCompletions + 1, totalPossible)
             else (totalCompletions, totalPossible))
          (totalCompletions, totalPossible) ts
    = (totalCompletions
       + Z.of_nat (length (filter (fun t => isCompleted dc day (id t) = true) ts)),
       totalPossible + Z.of_nat (length ts)).
Proof.
  induction ts as [|t ts IH]; intros tc tp; simpl.
  - f_equal; lia.
  - rewrite filter_cons. destruct (isCompleted dc day (id t)) eqn:Ht.
    + rewrite IH, decide_True by reflexivity. simpl. f_equal; lia.
    + rewrite IH, decide_False by discriminate. f_equal; lia.
Qed.

Lemma length_filter_list_prod_cons {A B} (P : A * B -> Prop)
    `{!forall p, Decision (P p)} (x : A) (xs : list A) (ys : list B) :
  length (filter P (list_prod (x :: xs) ys))
  = (length (filter (fun y => P (x, y)) ys)
     + length (filter P (list_prod xs ys)))%nat.
Proof.
  simpl. rewrite filter_app, length_app. f_equal.
  apply (length_filter_map (fun y => (x, y)) P).
Qed.

Lemma foldl_slots_dates (dc : CompletionLog) (ts : list Task) (ds : list Date) :
  forall totalCompletions totalPossible,
    foldl (fun totals d =>
             foldl (fun '(totalCompletions, totalPossible) task =>
                      let totalPossible := totalPossible + 1 in
                      if isCompleted dc (dateStr d) (id task)
                      then (totalCompletions + 1, totalPossible)
                      else (totalCompletions, totalPossible))
                   totals ts)
          (totalCompletions, totalPossible) ds
    = (totalCompletions
       + Z.of_nat (length (filter (fun p : Z * Task => isCompleted dc p.1 (id p.2) = true)
                                  (list_prod (map dateStr ds) ts))),
       totalPossible + Z.of_nat (length ds) * Z.of_nat (length ts)).
Proof.
  induction ds as [|d ds IH]; intros tc tp.
  - simpl. f_equal; lia.
  - cbn [foldl]. rewrite foldl_slots_tasks, IH.
    cbn [map]. rewrite length_filter_list_prod_cons. cbn [fst snd length].
    f_equal; lia.
Qed.

(** A period of [n] days: the loop counts the completed slots of its days,
    and one possible slot per day and task. *)
Lemma periodTotals_spec fuel periodStart periodEnd st n :
  (n < fuel)%nat ->
  periodEnd < addDays periodStart (Z.of_nat n) ->
  (n = 0%nat \/ addDays periodStart (Z.of_nat n - 1) <= periodEnd) ->
  periodTotals fuel periodStart periodEnd st
  = Some (completedSlotsIn (dailyCompletion st) (tasks st) (dateStr periodStart) n,
          Z.of_nat n * Z.of_nat (length (tasks st))).
Proof.
  intros Hfuel Hend Hlast. unfold periodTotals.
  rewrite (for_dates_datesFrom _ _ n) by assumption.
  f_equal.
  rewrite (foldl_slots_dates (dailyCompletion st) (tasks st)).
  rewrite dateStr_datesFrom. unfold completedSlotsIn.
  f_equal. unfold daysFrom. rewrite length_datesFrom. lia.
Qed.

(** The seven days that end on [weekEnd]. *)
Lemma periodTotals_week fuel weekEnd st :
  (7 < fuel)%nat ->
  periodTotals fuel (addDays weekEnd (- 6)) weekEnd st
  = Some (completedSlotsIn (dailyCompletion st) (tasks st) (dateStr weekEnd - 6) 7,
          7 * Z.of_nat (length (tasks st))).
Proof.
  intros Hfuel.
  rewrite (periodTotals_spec fuel _ _ st 7).
  - rewrite dateStr_addDays. reflexivity.
  - exact Hfuel.
  - rewrite addDays_addDays. unfold addDays, msPerDay. lia.
  - right. rewrite addDays_addDays. unfold addDays, msPerDay. lia.
Qed.


(** ** C5: removing a task *)

Lemma length_filter_split {A} (P : A -> Prop) `{!forall x, Decision (P x)}
    (l : list A) :
  (length (filter P l) + length (filter (fun x => not (P x)) l))%nat = length l.
Proof.
  induction l as [|x l IH]; [reflexivity|].
  rewrite !filter_cons. destruct (decide (P x)) as [HP|HP].
  - rewrite decide_False by tauto. simpl. lia.
  - rewrite decide_True by exact HP. simpl. lia.
Qed.

(** C5: after [removeTask taskId] no bucket of the log has an entry for the
    id and no task has it; the date loop of a week of [getWeeklySummary]
    then counts 7 possible slots for each task that is left, so the ones of
    the removed task are gone from [totalPossible]. *)
Theorem removeTask_cascade taskId st :
  let st' := removeTask taskId st in
  (forall date bucket,
     dailyCompletion st' !! date = Some bucket -> bucket !! taskId = None)
  /\ (taskId ∉ ids (tasks st'))
  /\ (forall fuel now i, (7 < fuel)%nat ->
        let weekEnd := addDays now (- (i * 7)) in
        let weekStart := addDays weekEnd (- 6) in
        exists totalCompletions,
          periodTotals fuel weekStart weekEnd st'
          = Some (totalCompletions,
                  7 * (Z.of_nat (length (tasks st))
                       - Z.of_nat (length (filter (fun task => id task = taskId)
                                                  (tasks st)))))).
Proof.
  intros st'. split; [|split].
  - intros date bucket Hb. unfold st' in Hb. rewrite removeTask_lookup in Hb.
    destruct (dailyCompletion st !! date) as [bucket0|]; [|discriminate].
    injection Hb as <-. apply lookup_delete_eq.
  - unfold ids. intros Hin. apply list_elem_of_fmap in Hin as (task & Hid & Hin).
    simpl in Hin. apply list_elem_of_filter in Hin as [Hne _]. congruence.
  - intros fuel now i Hfuel weekEnd weekStart.
    eexists. unfold weekStart. rewrite periodTotals_week by exact Hfuel.
    do 2 f_equal. simpl.
    pose proof (length_filter_split (fun task => id task = taskId) (tasks st)).
    lia.
Qed.

Lemma removeTask_cascade_witness :
  exists totalCompletions,
    periodTotals 8 (addDays (addDays (20 * msPerDay) (- (1 * 7))) (- 6))
      (addDays (20 * msPerDay) (- (1 * 7))) (removeTask 1 twoDayStreak)
    = Some (totalCompletions, 0).
Proof.
  refine (proj2 (proj2 (removeTask_cascade 1 twoDayStreak)) 8%nat (20 * msPerDay) 1 _).
  lia.
Defined.

(** ** C8: the weekly summary *)






(** ** C9: the order of the task list *)

Section SortLemmas.
Context {A : Type} (cmp : A -> A -> Z).

Lemma insert_sorted_Permutation x l : JS.insert_sorted cmp x l ≡ₚ x :: l.
Proof.
  induction l as [|y l IH]; simpl; [reflexivity|].
  destruct (cmp x y <=? 0); [reflexivity|].
  rewrite IH. apply Permutation_swap.
Qed.

Lemma sort_Permutation l : JS.sort cmp l ≡ₚ l.
Proof.
  induction l as [|x l IH]; simpl; [reflexivity|].
  rewrite insert_sorted_Permutation, IH. reflexivity.
Qed.
End SortLemmas.

Lemma insert_sorted_sorted x l :
  sortedByPriority l -> sortedByPriority (JS.insert_sorted byPriority x l).
Proof.
  unfold sortedByPriority. intros Hl.
  induction Hl as [|y l Hl IH Hy]; simpl.
  - repeat constructor.
  - unfold byPriority at 1. destruct (Z.leb_spec (priorityOrder (priority y) - priorityOrder (priority x)) 0) as [Hle|Hgt].
    + constructor; [constructor; assumption|].
      constructor; [lia|].
      eapply Forall_impl; [exact Hy|]. simpl. intros z Hz. lia.
    + constructor; [exact IH|].
      rewrite insert_sorted_Permutation. constructor; [lia|exact Hy].
Qed.

Lemma sort_sorted l : sortedByPriority (JS.sort byPriority l).
Proof.
  induction l as [|x l IH]; simpl; [constructor|].
  apply insert_sorted_sorted, IH.
Qed.

(** The tasks of one priority keep their order: an inserted task passes
    only tasks of a strictly higher priority. *)
Lemma filter_insert_sorted p x l :
  filter (fun t => priority t = p) (JS.insert_sorted byPriority x l)
  = filter (fun t => priority t = p) (x :: l).
Proof.
  induction l as [|y l IH]; simpl; [reflexivity|].
  unfold byPriority at 1.
  destruct (Z.leb_spec (priorityOrder (priority y) - priorityOrder (priority x)) 0) as [Hle|Hgt];
    [reflexivity|].
  rewrite (filter_cons _ y), IH, !filter_cons.
  destruct (decide (priority y = p)) as [Hy|Hy]; [|reflexivity].
  destruct (decide (priority x = p)) as [Hx|Hx]; [|reflexivity].
  rewrite Hy, Hx in Hgt. lia.
Qed.

Lemma filter_sort p l :
  filter (fun t => priority t = p) (JS.sort byPriority l)
  = filter (fun t => priority t = p) l.
Proof.
  induction l as [|x l IH]; simpl; [reflexivity|].
  rewrite filter_insert_sorted, !filter_cons, IH. reflexivity.
Qed.

Lemma sortedByPriority_filter (P : Task -> Prop) `{!forall t, Decision (P t)} l :
  sortedByPriority l -> sortedByPriority (filter P l).
Proof.
  unfold sortedByPriority. intros Hl.
  induction Hl as [|y l Hl IH Hy]; [constructor|].
  rewrite filter_cons. destruct (decide (P y)); [|exact IH].
  constructor; [exact IH|].
  rewrite Forall_forall in *. intros z Hz. apply Hy.
  apply list_elem_of_filter in Hz. tauto.
Qed.

Lemma handle_sorted ev st :
  sortedByPriority (tasks st) -> sortedByPriority (tasks (handle ev st)).
Proof.
  intros Hs.
  destruct ev as [s|p|n|e|idNow createdNow|taskId updates|taskId|taskId date];
    cbn [handle]; try exact Hs.
  - unfold addTask. destruct (JS.truthy _); [apply sort_sorted|exact Hs].
  - apply sort_sorted.
  - apply sortedByPriority_filter. exact Hs.
Qed.

Lemma loadData_tasks db st :
  tasks (loadData db st)
  = match tasksStore db with
    | [] => tasks st
    | _ :: _ => JS.sort byPriority (getAll (tasksStore db))
    end.
Proof.
  unfold loadData, loadFromIndexedDB, getAll.
  destruct (tasksStore db) as [|r rs], (completionsStore db) as [|c cs];
    reflexivity.
Qed.

(** C9: the list that [addTask], [updateTask] and the startup load store is
    sorted by priority, high first, and the tasks of equal priority are in
    the order they had in the array that was sorted; with [removeTask]
    filtering and the other actions leaving the list alone, the list is
    sorted after the load and every sequence of actions. *)
Theorem tasks_sorted_by_priority :
  (forall idNow createdNow st,
     JS.trim (newTaskName st) <> [] ->
     let ts := tasks (addTask idNow createdNow st) in
     sortedByPriority ts
     /\ forall p, filter (fun t => priority t = p) ts
                  = filter (fun t => priority t = p)
                           (tasks st ++ [newTask idNow createdNow st]))
  /\ (forall taskId updates st,
        let ts := tasks (updateTask taskId updates st) in
        sortedByPriority ts
        /\ forall p, filter (fun t => priority t = p) ts
                     = filter (fun t => priority t = p)
                              (map (fun task => if decide (id task = taskId)
                                                then merge task updates else task)
                                   (tasks st)))
  /\ (forall db st,
        tasksStore db <> [] ->
        let ts := tasks (loadData db st) in
        sortedByPriority ts
        /\ forall p, filter (fun t => priority t = p) ts
                     = filter (fun t => priority t = p)
                              (loadFromIndexedDB (tasksStore db)))
  /\ (forall db evs,
        sortedByPriority (tasks (run evs (loadData db initialState, db)).1)).
Proof.
  split; [|split; [|split]].
  - intros idNow createdNow st Hname ts. unfold ts, addTask.
    destruct (JS.trim (newTaskName st)) as [|c s] eqn:Ht; [congruence|].
    cbn [JS.truthy set_newTaskPriority set_newTaskName set_tasks tasks].
    split; [apply sort_sorted|]. intros p. apply filter_sort.
  - intros taskId updates st ts. unfold ts, updateTask.
    cbn [set_editingTask set_tasks tasks].
    split; [apply sort_sorted|]. intros p. apply filter_sort.
  - intros db st Hne ts. unfold ts. rewrite loadData_tasks.
    destruct (tasksStore db) as [|r rs] eqn:Hs; [congruence|].
    split; [apply sort_sorted|]. intros p. apply filter_sort.
  - intros db evs.
    assert (sortedByPriority (tasks (loadData db initialState, db).1)) as Hinit.
    { cbn [fst]. rewrite loadData_tasks.
      destruct (tasksStore db); [constructor|apply sort_sorted]. }
    generalize dependent (loadData db initialState, db).
    induction evs as [|ev evs IH]; intros sd Hsd; [exact Hsd|].
    rewrite run_cons. apply IH. rewrite fst_step. apply handle_sorted, Hsd.
Qed.

Lemma tasks_sorted_by_priority_witness :
  sortedByPriority (tasks (addTask 2 2 typingHigh))
  /\ ids (tasks (addTask 2 2 typingHigh)) = [2; 1].
Proof.
  split; [|reflexivity].
  refine (proj1 (proj1 tasks_sorted_by_priority 2 2 typingHigh _)).
  vm_compute. discriminate.
Defined.

(** ** C6: adding a task *)

Lemma truthy_nonempty s : JS.truthy s = true <-> s <> [].
Proof. destruct s; simpl; split; congruence. Qed.




(** ** C2: saving and reloading *)

(** C2 fails on the code: the save effects only [put] records and skip an
    empty collection, so the record of a removed task stays in the [tasks]
    store.  After adding two tasks and removing the first, the state has
    the second task only and a reload brings back both; after adding one
    task and removing it, the state has no task and a reload brings it
    back. *)
Theorem removed_task_reappears :
  ids (tasks removalSession.1) = [2]
  /\ ids (loadFromIndexedDB (tasksStore removalSession.2)) = [1; 2]
  /\ ids (tasks (loadData removalSession.2 initialState)) = [1; 2]
  /\ tasks lastTaskSession.1 = []
  /\ ids (tasks (loadData lastTaskSession.2 initialState)) = [1].
Proof. repeat split; vm_compute; reflexivity. Qed.

(** ** The completions store *)

Section PutLemmas.
Context {V : Type}.
Implicit Types (s : list (Z * V)) (k : Z) (v : V).

Lemma put_list_to_map k v s :
  (list_to_map (put k v s) : gmap Z V) = <[k := v]> (list_to_map s).
Proof.
  induction s as [|[k' v'] s IH]; simpl; [reflexivity|].
  destruct (Z.ltb_spec k k') as [Hlt|Hge]; [reflexivity|].
  destruct (Z.eqb_spec k k') as [->|Hne]; simpl.
  - rewrite insert_insert_eq. reflexivity.
  - rewrite IH. apply insert_insert_ne. congruence.
Qed.

Lemma put_keys k v s x : x ∈ (put k v s).*1 -> x = k \/ x ∈ s.*1.
Proof.
  induction s as [|[k' v'] s IH]; simpl.
  - intros Hx. apply list_elem_of_singleton in Hx. left. exact Hx.
  - destruct (Z.ltb_spec k k') as [Hlt|Hge]; simpl.
    + intros Hx. apply elem_of_cons in Hx as [->|Hx]; [left; reflexivity|].
      right. exact Hx.
    + destruct (Z.eqb_spec k k') as [->|Hne]; simpl.
      * intros Hx. apply elem_of_cons in Hx as [->|Hx]; [left; reflexivity|].
        right. right. exact Hx.
      * intros Hx. apply elem_of_cons in Hx as [->|Hx]; [right; left|].
        destruct (IH Hx) as [->|Hin]; [left; reflexivity|right; right; exact Hin].
Qed.

Lemma put_sorted k v s :
  StronglySorted Z.lt (s.*1) -> StronglySorted Z.lt ((put k v s).*1).
Proof.
  intros Hs. induction s as [|[k' v'] s IH]; simpl.
  - repeat constructor.
  - simpl in Hs. apply StronglySorted_inv in Hs as [Hs Hk'].
    destruct (Z.ltb_spec k k') as [Hlt|Hge]; simpl.
    + constructor; [constructor; assumption|].
      constructor; [exact Hlt|].
      eapply Forall_impl; [exact Hk'|]. simpl. intros z Hz. lia.
    + destruct (Z.eqb_spec k k') as [->|Hne]; simpl.
      * constructor; assumption.
      * constructor; [apply IH, Hs|].
        rewrite Forall_forall in *. intros x Hx.
        destruct (put_keys _ _ _ _ Hx) as [->|Hin]; [lia|apply Hk', Hin].
Qed.

Lemma put_Forall (P : Z * V -> Prop) k v s :
  P (k, v) -> Forall P s -> Forall P (put k v s).
Proof.
  intros HP Hs. induction Hs as [|[k' v'] s Hkv Hs IH]; simpl.
  - repeat constructor. exact HP.
  - destruct (k <? k'); [repeat constructor; assumption|].
    destruct (k =? k'); constructor; assumption.
Qed.

Lemma saveToIndexedDB_list_to_map (keyPath : V -> Z) data : forall s,
  (list_to_map (saveToIndexedDB keyPath data s) : gmap Z V)
  = foldl (fun m item => <[keyPath item := item]> m) (list_to_map s) data.
Proof.
  unfold saveToIndexedDB.
  induction data as [|item data IH]; intros s; simpl; [reflexivity|].
  rewrite IH, put_list_to_map. reflexivity.
Qed.

Lemma saveToIndexedDB_sorted (keyPath : V -> Z) data : forall s,
  StronglySorted Z.lt (s.*1) ->
  StronglySorted Z.lt ((saveToIndexedDB keyPath data s).*1).
Proof.
  unfold saveToIndexedDB.
  induction data as [|item data IH]; intros s Hs; simpl; [exact Hs|].
  apply IH, put_sorted, Hs.
Qed.

Lemma saveToIndexedDB_keyed (keyPath : V -> Z) data : forall s,
  Forall (fun kv => keyPath kv.2 = kv.1) s ->
  Forall (fun kv => keyPath kv.2 = kv.1) (saveToIndexedDB keyPath data s).
Proof.
  unfold saveToIndexedDB.
  induction data as [|item data IH]; intros s Hs; simpl; [exact Hs|].
  apply IH, put_Forall; [reflexivity|exact Hs].
Qed.
End PutLemmas.

Lemma StronglySorted_lt_NoDup (l : list Z) : StronglySorted Z.lt l -> NoDup l.
Proof.
  induction 1 as [|x l Hl IH Hx]; constructor; [|exact IH].
  intros Hin. rewrite Forall_forall in Hx. specialize (Hx _ Hin). lia.
Qed.

(** The map that [loadData] builds from the records of a store. *)
Lemma completionMap_storedLog (s : list (Z * Completion)) :
  NoDup (s.*1) ->
  Forall (fun kr => completion_id kr.2 = kr.1) s ->
  forall m : CompletionLog,
    foldl (fun (m : CompletionLog) completion =>
             <[completion_id completion := completion_data completion]> m)
          m (getAll s)
    = storedLog s ∪ m.
Proof.
  unfold storedLog, getAll.
  induction s as [|[k r] s IH]; intros Hnd Hkeyed m.
  - simpl. rewrite fmap_empty, (left_id_L ∅ (∪)). reflexivity.
  - simpl in Hnd. apply NoDup_cons in Hnd as [Hk Hnd].
    apply Forall_cons in Hkeyed as [Hr Hkeyed]. simpl in Hr. subst k.
    cbn [map foldl snd list_to_map foldr uncurry]. simpl.
    rewrite IH by assumption.
    rewrite fmap_insert, <- insert_union_l, insert_union_r; [reflexivity|].
    rewrite lookup_fmap. rewrite (not_elem_of_list_to_map_1 _ _ Hk). reflexivity.
Qed.

(** The store after one [put] per entry of a log. *)
Lemma foldl_put_entries (l : list (Z * gmap Z bool)) :
  NoDup (l.*1) ->
  forall (M : gmap Z Completion) k,
    foldl (fun (m : gmap Z Completion) item => <[completion_id item := item]> m) M
          (map (fun '(date, data) => mkCompletion date data) l) !! k
    = match (list_to_map l : CompletionLog) !! k with
      | Some data => Some (mkCompletion k data)
      | None => M !! k
      end.
Proof.
  induction l as [|[date data] l IH]; intros Hnd M k; [reflexivity|].
  simpl in Hnd. apply NoDup_cons in Hnd as [Hdate Hnd].
  cbn [map foldl list_to_map foldr uncurry]. rewrite IH by exact Hnd. simpl.
  destruct (decide (date = k)) as [->|Hne].
  - rewrite (not_elem_of_list_to_map_1 _ _ Hdate), !lookup_insert_eq. reflexivity.
  - rewrite !lookup_insert_ne by exact Hne. reflexivity.
Qed.

Lemma saveCompletionsEffect_storedLog st db :
  completionsStoreOk (completionsStore db) ->
  dom (storedLog (completionsStore db)) ⊆ dom (dailyCompletion st) ->
  completionsStoreOk (completionsStore (saveCompletionsEffect st db))
  /\ storedLog (completionsStore (saveCompletionsEffect st db)) = dailyCompletion st.
Proof.
  intros [Hsorted Hkeyed] Hdom. unfold saveCompletionsEffect.
  destruct (decide (dailyCompletion st = ∅)) as [Hempty|Hne].
  - rewrite Hempty in *. rewrite map_to_list_empty. simpl.
    split; [split; assumption|].
    rewrite dom_empty_L in Hdom. apply dom_empty_iff_L. set_solver.
  - replace (0 <? length _)%nat with true.
    2:{ destruct (map_to_list (dailyCompletion st)) eqn:Hes; [|reflexivity].
        apply map_to_list_empty_iff in Hes. contradiction. }
    cbn [completionsStore]. split.
    + split; [apply saveToIndexedDB_sorted, Hsorted|].
      apply saveToIndexedDB_keyed, Hkeyed.
    + apply map_eq. intros k. unfold storedLog at 1.
      rewrite lookup_fmap, saveToIndexedDB_list_to_map.
      rewrite foldl_put_entries by apply NoDup_fst_map_to_list.
      rewrite list_to_map_to_list.
      destruct (dailyCompletion st !! k) as [data|] eqn:Hk; [reflexivity|].
      apply not_elem_of_dom in Hk.
      assert (k ∉ dom (storedLog (completionsStore db))) as Hnot by set_solver.
      apply not_elem_of_dom in Hnot. unfold storedLog in Hnot.
      rewrite lookup_fmap in Hnot. exact Hnot.
Qed.

Lemma loadData_dailyCompletion db :
  completionsStoreOk (completionsStore db) ->
  dailyCompletion (loadData db initialState) = storedLog (completionsStore db).
Proof.
  intros [Hsorted Hkeyed].
  pose proof (completionMap_storedLog (completionsStore db)
                (StronglySorted_lt_NoDup _ Hsorted) Hkeyed ∅) as Hmap.
  rewrite (right_id_L ∅ (∪)) in Hmap.
  unfold loadData, loadFromIndexedDB.
  destruct (completionsStore db) as [|c cs] eqn:Hcs.
  - destruct (getAll (tasksStore db)); reflexivity.
  - rewrite <- Hmap. destruct (getAll (tasksStore db)); reflexivity.
Qed.

Lemma step_storedLog ev sd :
  completionsStoreOk (completionsStore sd.2)
  /\ storedLog (completionsStore sd.2) = dailyCompletion sd.1 ->
  completionsStoreOk (completionsStore (step ev sd).2)
  /\ storedLog (completionsStore (step ev sd).2) = dailyCompletion (step ev sd).1.
Proof.
  destruct sd as [st db]. cbn [fst snd]. intros [Hok Hlog].
  assert (forall b : bool, completionsStore (if b then saveTasksEffect (handle ev st) db else db)
                    = completionsStore db) as Htasks.
  { intros [|]; [|reflexivity]. unfold saveTasksEffect.
    destruct (0 <? length _)%nat; reflexivity. }
  unfold step.
  destruct (setsDailyCompletion ev) eqn:Hsets; cbn [fst snd].
  - apply saveCompletionsEffect_storedLog; rewrite Htasks; [exact Hok|].
    rewrite Hlog. intros date Hdate. apply elem_of_dom. apply elem_of_dom in Hdate.
    apply handle_hasBucket. exact Hdate.
  - rewrite Htasks. split; [exact Hok|]. rewrite Hlog.
    destruct ev; try discriminate; cbn [handle]; try reflexivity.
    unfold addTask. destruct (JS.truthy _); reflexivity.
Qed.

(** X1: reloading gives back the completion log: through every sequence of
    actions of a session that started with a load, the records of the
    [completions] store hold the log of the state. *)
Theorem completions_round_trip db evs :
  completionsStoreOk (completionsStore db) ->
  dailyCompletion (loadData (run evs (loadData db initialState, db)).2 initialState)
  = dailyCompletion (run evs (loadData db initialState, db)).1.
Proof.
  intros Hok.
  assert (completionsStoreOk (completionsStore (loadData db initialState, db).2)
          /\ storedLog (completionsStore (loadData db initialState, db).2)
             = dailyCompletion (loadData db initialState, db).1) as Hinv.
  { cbn [fst snd]. split; [exact Hok|]. symmetry. apply loadData_dailyCompletion, Hok. }
  generalize dependent (loadData db initialState, db). intros sd Hinv.
  assert (completionsStoreOk (completionsStore (run evs sd).2)
          /\ storedLog (completionsStore (run evs sd).2)
             = dailyCompletion (run evs sd).1) as [Hok' Hlog'].
  { revert sd Hinv. induction evs as [|ev evs IH]; intros sd Hinv; [exact Hinv|].
    rewrite run_cons. apply IH, step_storedLog, Hinv. }
  rewrite loadData_dailyCompletion by exact Hok'. exact Hlog'.
Qed.

Lemma completions_round_trip_witness :
  dailyCompletion
    (loadData (run toggleEvents (loadData emptyDB initialState, emptyDB)).2
              initialState)
  = dailyCompletion (run toggleEvents (loadData emptyDB initialState, emptyDB)).1.
Proof.
  refine (completions_round_trip emptyDB toggleEvents _).
  split; constructor.
Defined.

(** ** More on the order of the task list *)

Lemma filter_none {A} (P : A -> Prop) `{!forall x, Decision (P x)} (l : list A) :
  Forall (fun x => not (P x)) l -> filter P l = [].
Proof.
  induction 1 as [|x l Hx Hl IH]; [reflexivity|].
  rewrite filter_cons, decide_False by exact Hx. exact IH.
Qed.

(** A list sorted by priority is its high tasks, then its medium tasks,
    then its low tasks. *)
Lemma sortedByPriority_groups l :
  sortedByPriority l ->
  l = filter (fun t => priority t = high) l
      ++ filter (fun t => priority t = medium) l
      ++ filter (fun t => priority t = low) l.
Proof.
  unfold sortedByPriority. induction 1 as [|y l Hl IH Hy]; [reflexivity|].
  rewrite !filter_cons. destruct (priority y) eqn:Hp.
  - rewrite decide_True, !decide_False by congruence. simpl. f_equal. exact IH.
  - rewrite (decide_False (P := medium = high)) by congruence.
    rewrite decide_True, decide_False by congruence.
    rewrite (filter_none (fun t => priority t = high)) in * |- *.
    + simpl. f_equal. exact IH.
    + eapply Forall_impl; [exact Hy|]. simpl. intros z Hz Hhigh.
      rewrite Hhigh in Hz. simpl in Hz. lia.
    + eapply Forall_impl; [exact Hy|]. simpl. intros z Hz Hhigh.
      rewrite Hhigh in Hz. simpl in Hz. lia.
  - rewrite !(decide_False (P := low = high)), !(decide_False (P := low = medium)) by congruence.
    rewrite decide_True by reflexivity.
    assert (Forall (fun z => priority z = low) l) as Hlow.
    { eapply Forall_impl; [exact Hy|]. simpl. intros z Hz.
      destruct (priority z); simpl in Hz; [lia|lia|reflexivity]. }
    rewrite (filter_none (fun t => priority t = high)) in * |- *;
      [|eapply Forall_impl; [exact Hlow|]; simpl; congruence
       |eapply Forall_impl; [exact Hlow|]; simpl; congruence].
    rewrite (filter_none (fun t => priority t = medium)) in * |- *;
      [|eapply Forall_impl; [exact Hlow|]; simpl; congruence
       |eapply Forall_impl; [exact Hlow|]; simpl; congruence].
    simpl. f_equal. exact IH.
Qed.

(** X3: the sort of the three handlers groups the tasks by priority and
    nothing else: its result is the high tasks of the array, then the medium
    ones, then the low ones, each group in the order it had in the array. *)
Theorem sort_byPriority_groups l :
  JS.sort byPriority l
  = filter (fun t => priority t = high) l
    ++ filter (fun t => priority t = medium) l
    ++ filter (fun t => priority t = low) l.
Proof.
  rewrite (sortedByPriority_groups (JS.sort byPriority l)) by apply sort_sorted.
  rewrite !filter_sort. reflexivity.
Qed.

Lemma insert_sorted_first x l :
  Forall (fun z => priorityOrder (priority z) <= priorityOrder (priority x)) l ->
  JS.insert_sorted byPriority x l = x :: l.
Proof.
  intros Hl. destruct l as [|y l]; [reflexivity|]. simpl.
  apply Forall_cons in Hl as [Hy _]. unfold byPriority.
  destruct (Z.leb_spec (priorityOrder (priority y) - priorityOrder (priority x)) 0);
    [reflexivity|lia].
Qed.

Lemma sort_sorted_id l : sortedByPriority l -> JS.sort byPriority l = l.
Proof.
  unfold sortedByPriority. induction 1 as [|y l Hl IH Hy]; [reflexivity|].
  simpl. rewrite IH. apply insert_sorted_first. exact Hy.
Qed.

Lemma foldr_insert_new t l :
  sortedByPriority l ->
  foldr (JS.insert_sorted byPriority) [t] l
  = filter (fun t' => priorityOrder (priority t) <= priorityOrder (priority t')) l
    ++ t :: filter (fun t' => priorityOrder (priority t') < priorityOrder (priority t)) l.
Proof.
  unfold sortedByPriority. induction 1 as [|y l Hl IH Hy]; [reflexivity|].
  cbn [foldr]. rewrite IH. clear IH. rewrite !filter_cons.
  destruct (decide (priorityOrder (priority t) <= priorityOrder (priority y))) as [Hge|Hlt].
  - rewrite decide_False by lia. apply insert_sorted_first.
    rewrite Forall_app, Forall_cons. rewrite !Forall_forall in *.
    split; [|split; [exact Hge|]]; intros z Hz;
      apply list_elem_of_filter in Hz as [_ Hz]; apply Hy, Hz.
  - rewrite decide_True by lia.
    rewrite (filter_none (fun t' => priorityOrder (priority t) <= priorityOrder (priority t'))).
    2:{ eapply Forall_impl; [exact Hy|]. simpl. intros z Hz. lia. }
    simpl. unfold byPriority at 1.
    destruct (Z.leb_spec (priorityOrder (priority t) - priorityOrder (priority y)) 0);
      [lia|].
    f_equal. apply insert_sorted_first.
    rewrite Forall_forall in *. intros z Hz.
    apply list_elem_of_filter in Hz as [_ Hz]. apply Hy, Hz.
Qed.

(** X4: in a list that is sorted, [addTask] puts the new task behind the
    tasks of its own and of higher priority and in front of the tasks of
    lower priority, and moves no other task. *)
Theorem addTask_position idNow createdNow st :
  JS.trim (newTaskName st) <> [] ->
  sortedByPriority (tasks st) ->
  let t := newTask idNow createdNow st in
  tasks (addTask idNow createdNow st)
  = filter (fun t' => priorityOrder (priority t) <= priorityOrder (priority t')) (tasks st)
    ++ t :: filter (fun t' => priorityOrder (priority t') < priorityOrder (priority t)) (tasks st).
Proof.
  intros Hname Hsorted t. unfold addTask.
  rewrite (proj2 (truthy_nonempty _) Hname).
  cbn [set_newTaskPriority set_newTaskName set_tasks tasks].
  unfold JS.sort. rewrite foldr_app. cbn [foldr JS.insert_sorted].
  apply foldr_insert_new, Hsorted.
Qed.

Lemma addTask_position_witness :
  ids (tasks (addTask 3 3 (set_newTaskName (JS.of_ascii "c") (addTask 2 2 typingHigh))))
  = [2; 1; 3].
Proof.
  rewrite (addTask_position 3 3 (set_newTaskName (JS.of_ascii "c") (addTask 2 2 typingHigh))).
  - reflexivity.
  - vm_compute. discriminate.
  - unfold sortedByPriority. repeat constructor; vm_compute; discriminate.
Defined.

(** ** More on [updateTask] and [removeTask] *)

(** X5: [updateTask] keeps the tasks in number and in identity: the ids
    of the list are the same up to order, and the completion log is not
    touched.  When the update sets no priority, or names an id that no task
    has, a sorted list keeps its order: the tasks stay where they are, the
    named ones with the new fields. *)
Theorem updateTask_keeps_tasks taskId updates st :
  let st' := updateTask taskId updates st in
  let updated :=
    map (fun task => if decide (id task = taskId) then merge task updates else task)
        (tasks st) in
  ids (tasks st') ≡ₚ ids (tasks st)
  /\ length (tasks st') = length (tasks st)
  /\ dailyCompletion st' = dailyCompletion st
  /\ (sortedByPriority (tasks st) -> upd_priority updates = None ->
      tasks st' = updated)
  /\ (sortedByPriority (tasks st) -> taskId ∉ ids (tasks st) ->
      tasks st' = tasks st).
Proof.
  intros st' updated.
  assert (tasks st' = JS.sort byPriority updated) as Hts by reflexivity.
  assert (ids updated = ids (tasks st)) as Hids.
  { unfold ids, updated. rewrite map_map. apply map_ext. intros task.
    destruct (decide (id task = taskId)); reflexivity. }
  split; [|split; [|split; [reflexivity|split]]].
  - rewrite Hts, <- Hids. unfold ids. apply Permutation_map, sort_Permutation.
  - rewrite Hts, (sort_Permutation byPriority updated).
    unfold updated. apply length_map.
  - intros Hsorted Hnone. rewrite Hts. apply sort_sorted_id.
    assert (map priority updated = map priority (tasks st)) as Hprio.
    { unfold updated. rewrite map_map. apply map_ext. intros task.
      destruct (decide (id task = taskId)); [|reflexivity].
      unfold merge. simpl. rewrite Hnone. reflexivity. }
    unfold sortedByPriority in *. clearbody updated. clear Hts Hids st'.
    revert updated Hprio.
    induction Hsorted as [|y l Hl IH Hy]; intros [|u us] Hprio;
      try discriminate; [constructor|].
    injection Hprio as Hu Hus. constructor; [apply IH, Hus|].
    rewrite Hu. clear IH Hl Hu. revert us Hus.
    induction Hy as [|z l Hz Hy IH]; intros [|v vs] Hus; try discriminate;
      [constructor|].
    injection Hus as Hv Hvs. constructor; [rewrite Hv; exact Hz|apply IH, Hvs].
  - intros Hsorted Hnot. rewrite Hts.
    replace updated with (tasks st); [apply sort_sorted_id, Hsorted|].
    unfold updated. symmetry. rewrite <- (map_id (tasks st)) at 2.
    apply map_ext_in. intros task Hin.
    destruct (decide (id task = taskId)) as [Heq|]; [|reflexivity].
    exfalso. apply Hnot. unfold ids. rewrite <- Heq.
    apply list_elem_of_fmap_2, list_elem_of_In, Hin.
Qed.

Lemma updateTask_keeps_tasks_witness :
  tasks (updateTask 1 (mkUpdates (Some (JS.of_ascii "walk")) None) twoDayStreak)
  = map (fun task => if decide (id task = 1)
                     then merge task (mkUpdates (Some (JS.of_ascii "walk")) None)
                     else task)
        (tasks twoDayStreak).
Proof.
  refine (proj1 (proj2 (proj2 (proj2
    (updateTask_keeps_tasks 1 (mkUpdates (Some (JS.of_ascii "walk")) None) twoDayStreak)))) _ _).
  - unfold sortedByPriority. repeat constructor.
  - reflexivity.
Defined.

Lemma isCompleted_removeTask_other taskId taskId' date st :
  taskId' <> taskId ->
  isCompleted (dailyCompletion (removeTask taskId st)) date taskId'
  = isCompleted (dailyCompletion st) date taskId'.
Proof.
  intros Hne. unfold isCompleted. rewrite removeTask_lookup.
  destruct (dailyCompletion st !! date) as [bucket|]; [|reflexivity].
  simpl. rewrite lookup_delete_ne by congruence. reflexivity.
Qed.

Lemma isCompleted_removeTask taskId date st :
  isCompleted (dailyCompletion (removeTask taskId st)) date taskId = false.
Proof.
  unfold isCompleted. rewrite removeTask_lookup.
  destruct (dailyCompletion st !! date) as [bucket|]; [|reflexivity].
  simpl. rewrite lookup_delete_eq. reflexivity.
Qed.

(** X6: [removeTask] touches the removed id only: the tasks of other ids
    stay, in their order; the completion value of every pair of another id
    stays; every date keeps its bucket; for an id that no task has the task
    list is unchanged; and removing the same id again changes nothing. *)
Theorem removeTask_frame taskId st :
  let st' := removeTask taskId st in
  tasks st' = filter (fun task => id task <> taskId) (tasks st)
  /\ (forall date taskId', taskId' <> taskId ->
        isCompleted (dailyCompletion st') date taskId'
        = isCompleted (dailyCompletion st) date taskId')
  /\ (forall date, hasBucket (dailyCompletion st') date
                   <-> hasBucket (dailyCompletion st) date)
  /\ (taskId ∉ ids (tasks st) -> tasks st' = tasks st)
  /\ removeTask taskId st' = st'.
Proof.
  intros st'. split; [reflexivity|]. split; [|split; [|split]].
  - intros date taskId' Hne. apply isCompleted_removeTask_other, Hne.
  - intros date. unfold hasBucket, st'. rewrite removeTask_lookup.
    destruct (dailyCompletion st !! date); simpl; split; intros [x Hx];
      try discriminate; eauto.
  - intros Hnot. change (tasks st') with (filter (fun task => id task <> taskId) (tasks st)).
    unfold ids in Hnot. induction (tasks st) as [|task l IH]; [reflexivity|].
    simpl in Hnot. apply not_elem_of_cons in Hnot as [Hne Hnot].
    rewrite filter_cons, decide_True by congruence. f_equal. apply IH, Hnot.
  - unfold st', removeTask, set_dailyCompletion, set_tasks. simpl. f_equal.
    + rewrite list_filter_filter. apply list_filter_iff. intros task. tauto.
    + rewrite <- map_fmap_compose. apply map_fmap_ext. intros date bucket _.
      simpl. apply delete_delete_eq.
Qed.

Lemma removeTask_frame_witness :
  tasks (removeTask 9 twoDayStreak) = tasks twoDayStreak.
Proof.
  refine (proj1 (proj2 (proj2 (proj2 (removeTask_frame 9 twoDayStreak)))) _).
  vm_compute. intros H. apply list_elem_of_singleton in H. discriminate.
Defined.

(** ** More on [toggleTaskCompletion] *)

Lemma State_eq (st st' : State) :
  tasks st = tasks st' -> newTaskName st = newTaskName st' ->
  newTaskPriority st = newTaskPriority st' ->
  dailyCompletion st = dailyCompletion st' -> totalDays st = totalDays st' ->
  editingTask st = editingTask st' -> st = st'.
Proof. destruct st, st'. simpl. intros. subst. reflexivity. Qed.

(** X7: toggles of two different (date, task) pairs commute: the state
    does not depend on the order of the two clicks. *)
Theorem toggleTaskCompletion_commute taskId1 date1 taskId2 date2 st :
  (date1, taskId1) <> (date2, taskId2) ->
  toggleTaskCompletion taskId1 date1 (toggleTaskCompletion taskId2 date2 st)
  = toggleTaskCompletion taskId2 date2 (toggleTaskCompletion taskId1 date1 st).
Proof.
  intros Hne. apply State_eq; try reflexivity.
  apply map_eq. intros k.
  destruct (decide (date1 = date2)) as [<-|Hd].
  - assert (taskId1 <> taskId2) as Ht by congruence.
    destruct (decide (date1 = k)) as [<-|Hk].
    + rewrite !toggleTaskCompletion_lookup.
      rewrite !isCompleted_toggle_other by congruence. simpl.
      f_equal. apply insert_insert_ne. exact Ht.
    + rewrite !toggleTaskCompletion_lookup_ne by exact Hk. reflexivity.
  - destruct (decide (date1 = k)) as [<-|Hk1].
    + rewrite (toggleTaskCompletion_lookup_ne taskId2 date2 date1
                 (toggleTaskCompletion taskId1 date1 st)) by congruence.
      rewrite !toggleTaskCompletion_lookup.
      rewrite isCompleted_toggle_other by congruence.
      rewrite (toggleTaskCompletion_lookup_ne taskId2 date2 date1 st) by congruence.
      reflexivity.
    + rewrite (toggleTaskCompletion_lookup_ne taskId1 date1 k
                 (toggleTaskCompletion taskId2 date2 st)) by exact Hk1.
      destruct (decide (date2 = k)) as [<-|Hk2].
      * rewrite !toggleTaskCompletion_lookup.
        rewrite isCompleted_toggle_other by congruence.
        rewrite (toggleTaskCompletion_lookup_ne taskId1 date1 date2 st) by congruence.
        reflexivity.
      * rewrite (toggleTaskCompletion_lookup_ne taskId2 date2 k
                   (toggleTaskCompletion taskId1 date1 st)) by exact Hk2.
        rewrite (toggleTaskCompletion_lookup_ne taskId2 date2 k st) by exact Hk2.
        rewrite (toggleTaskCompletion_lookup_ne taskId1 date1 k st) by exact Hk1.
        reflexivity.
Qed.

Lemma toggleTaskCompletion_commute_witness :
  toggleTaskCompletion 1 18 (toggleTaskCompletion 2 18 twoDayStreak)
  = toggleTaskCompletion 2 18 (toggleTaskCompletion 1 18 twoDayStreak).
Proof.
  refine (toggleTaskCompletion_commute 1 18 2 18 twoDayStreak _). discriminate.
Defined.

Lemma toggleTaskCompletion_hasEntry taskId date st :
  hasEntry (dailyCompletion (toggleTaskCompletion taskId date st)) date taskId.
Proof.
  eexists. split; [apply toggleTaskCompletion_lookup|].
  rewrite lookup_insert_eq. eauto.
Qed.

Lemma toggleTaskCompletion_twice_entry taskId date st :
  hasEntry (dailyCompletion st) date taskId ->
  toggleTaskCompletion taskId date (toggleTaskCompletion taskId date st) = st.
Proof.
  intros (bucket & Hb & [v Hv]). apply State_eq; try reflexivity.
  apply map_eq. intros k. destruct (decide (date = k)) as [<-|Hk].
  - rewrite !toggleTaskCompletion_lookup, isCompleted_toggle. simpl.
    rewrite Hb. simpl. rewrite insert_insert_eq, negb_involutive.
    unfold isCompleted. rewrite Hb, Hv. simpl.
    rewrite insert_id by exact Hv. reflexivity.
  - rewrite !toggleTaskCompletion_lookup_ne by exact Hk. reflexivity.
Qed.

(** X8: on a pair that has an entry in the log, two toggles give back the
    very state they started from; on a pair without one they leave an entry
    (a first toggle always writes one), so three toggles are one toggle in
    every case. *)
Theorem toggleTaskCompletion_twice_exact taskId date st :
  (hasEntry (dailyCompletion st) date taskId ->
   toggleTaskCompletion taskId date (toggleTaskCompletion taskId date st) = st)
  /\ hasEntry (dailyCompletion (toggleTaskCompletion taskId date st)) date taskId
  /\ toggleTaskCompletion taskId date
       (toggleTaskCompletion taskId date (toggleTaskCompletion taskId date st))
     = toggleTaskCompletion taskId date st.
Proof.
  split; [apply toggleTaskCompletion_twice_entry|].
  split; [apply toggleTaskCompletion_hasEntry|].
  apply toggleTaskCompletion_twice_entry, toggleTaskCompletion_hasEntry.
Qed.

Lemma toggleTaskCompletion_twice_exact_witness :
  toggleTaskCompletion 1 19 (toggleTaskCompletion 1 19 twoDayStreak) = twoDayStreak.
Proof.
  refine (proj1 (toggleTaskCompletion_twice_exact 1 19 twoDayStreak) _).
  unfold hasEntry. vm_compute. eexists. split; [reflexivity|]. eauto.
Defined.

(** ** More on the completion rate, the streak and the grid dates *)

Lemma foldl_snoc {A} (l : list A) : forall acc,
  foldl (fun dates d => dates ++ [d]) acc l = acc ++ l.
Proof.
  induction l as [|x l IH]; intros acc; simpl; [rewrite app_nil_r; reflexivity|].
  rewrite IH, <- app_assoc. reflexivity.
Qed.

Lemma last_datesFrom n : forall d,
  last (datesFrom d (S n)) = Some (addDays d (Z.of_nat n)).
Proof.
  induction n as [|n IH]; intros d.
  - simpl. rewrite addDays_0. reflexivity.
  - change (datesFrom d (S (S n))) with (d :: datesFrom (addDays d 1) (S n)).
    rewrite last_cons, IH, addDays_addDays.
    replace (1 + Z.of_nat n) with (Z.of_nat (S n)) by lia. reflexivity.
Qed.

(** X9: [getPeriodDates] returns the dates of the tracking window, oldest
    first, one per day and as many as the window has days, ending with
    today; and the days that [getTaskCompletionRate] counts are exactly the
    completed ones among them, so every cell of the Daily History grid is a
    day of the rate and every day of the rate has a cell. *)
Theorem getPeriodDates_spec fuel now taskId st :
  (Z.to_nat (totalDays st) < fuel)%nat ->
  exists dates,
    getPeriodDates fuel now st = Some dates
    /\ length dates = Z.to_nat (totalDays st)
    /\ map dateStr dates
       = daysFrom (dateStr now - totalDays st + 1) (Z.to_nat (totalDays st))
    /\ (1 <= totalDays st -> last dates = Some now)
    /\ getTaskCompletionRate fuel now taskId st
       = Some (JS.percent
                 (Z.of_nat (length (filter
                    (fun d => isCompleted (dailyCompletion st) (dateStr d) taskId = true)
                    dates)))
                 (totalDays st)).
Proof.
  intros Hfuel.
  set (n := Z.to_nat (totalDays st)) in *.
  set (start := addDays now (- totalDays st + 1)).
  assert (now < addDays start (Z.of_nat n)) as Hend.
  { unfold start. rewrite addDays_addDays. unfold addDays, msPerDay. lia. }
  assert (n = 0%nat \/ addDays start (Z.of_nat n - 1) <= now) as Hlast.
  { destruct n eqn:E; [left; reflexivity|right].
    unfold start. rewrite addDays_addDays. unfold addDays, msPerDay. lia. }
  exists (datesFrom start n).
  split; [|split; [|split; [|split]]].
  - unfold getPeriodDates. fold start.
    rewrite (for_dates_datesFrom _ _ n) by assumption.
    rewrite foldl_snoc. reflexivity.
  - apply length_datesFrom.
  - rewrite dateStr_datesFrom. unfold start. rewrite dateStr_addDays.
    f_equal. lia.
  - intros Hpos. destruct n as [|n'] eqn:E; [lia|].
    rewrite last_datesFrom. unfold start. rewrite addDays_addDays.
    unfold addDays. f_equal. subst n. lia.
  - unfold getTaskCompletionRate. fold start.
    rewrite (for_dates_datesFrom _ _ n) by assumption.
    rewrite (foldl_count (fun d => isCompleted (dailyCompletion st) (dateStr d) taskId)).
    reflexivity.
Qed.

Lemma getPeriodDates_spec_witness :
  exists dates,
    getPeriodDates 8 (20 * msPerDay + 5) twoDayStreak = Some dates
    /\ map dateStr dates = [14; 15; 16; 17; 18; 19; 20].
Proof.
  destruct (getPeriodDates_spec 8 (20 * msPerDay + 5) 1 twoDayStreak)
    as (dates & Hdates & _ & Hdays & _); [vm_compute; lia|].
  exists dates. split; [exact Hdates|]. rewrite Hdays. reflexivity.
Defined.

Lemma for_dates_ext {A} (body body' : Date -> A -> A) endDate :
  (forall d acc, body d acc = body' d acc) ->
  forall fuel d acc,
    for_dates fuel d endDate body acc = for_dates fuel d endDate body' acc.
Proof.
  intros Hext. induction fuel as [|fuel IH]; intros d acc; [reflexivity|].
  simpl. destruct (d <=? endDate); [|reflexivity]. rewrite Hext. apply IH.
Qed.

Lemma foldl_ext_all {A B} (f g : A -> B -> A) (l : list B) :
  (forall a b, f a b = g a b) -> forall a, foldl f a l = foldl g a l.
Proof.
  intros Hext. induction l as [|b l IH]; intros a; [reflexivity|].
  simpl. rewrite Hext. apply IH.
Qed.

Lemma getTaskCompletionRate_same_id fuel now taskId st st' :
  totalDays st' = totalDays st ->
  (forall date, isCompleted (dailyCompletion st') date taskId
                = isCompleted (dailyCompletion st) date taskId) ->
  getTaskCompletionRate fuel now taskId st'
  = getTaskCompletionRate fuel now taskId st.
Proof.
  intros Hdays Hsame. unfold getTaskCompletionRate. rewrite Hdays.
  erewrite for_dates_ext; [reflexivity|].
  intros d acc. simpl. rewrite Hsame. reflexivity.
Qed.

Section SameCompletions.
Variables (st st' : State).
Hypothesis Htasks : tasks st' = tasks st.
Hypothesis Hdays : totalDays st' = totalDays st.
Hypothesis Hsame : sameCompletions (dailyCompletion st) (dailyCompletion st').

Lemma getTaskCompletionRate_same fuel now taskId :
  getTaskCompletionRate fuel now taskId st'
  = getTaskCompletionRate fuel now taskId st.
Proof.
  apply getTaskCompletionRate_same_id; [exact Hdays|].
  intros date. symmetry. apply Hsame.
Qed.

Lemma getStreak_same now taskId :
  getStreak now taskId st' = getStreak now taskId st.
Proof.
  unfold getStreak. generalize 0 at 1 3. generalize 0. generalize 30%nat.
  intros n. induction n as [|n IH]; intros streak i; [reflexivity|].
  simpl. rewrite Hsame.
  destruct (isCompleted (dailyCompletion st') _ taskId); [apply IH|reflexivity].
Qed.

Lemma periodTotals_same fuel periodStart periodEnd :
  periodTotals fuel periodStart periodEnd st'
  = periodTotals fuel periodStart periodEnd st.
Proof.
  unfold periodTotals. rewrite Htasks. apply for_dates_ext.
  intros d totals. apply foldl_ext_all. intros [tc tp] task.
  rewrite Hsame. reflexivity.
Qed.

Lemma getWeeklySummary_same fuel now :
  getWeeklySummary fuel now st' = getWeeklySummary fuel now st.
Proof.
  unfold getWeeklySummary. f_equal.
  generalize (@nil Week). generalize 0. generalize 4%nat.
  intros n. induction n as [|n IH]; intros i weeks; [reflexivity|].
  cbn [getWeeklySummary_loop]. rewrite periodTotals_same.
  destruct (periodTotals fuel _ _ st) as [totals|]; [|reflexivity].
  cbn [mbind option_bind]. apply IH.
Qed.
End SameCompletions.

(** X10: the statistics read the log through the completion values only:
    two states with the same tasks and window whose logs give every
    (date, task) pair the same value, an absent entry counting as false,
    have the same completion rates, streaks and weekly summary.  A pair
    toggled on and off again is such a case. *)
Theorem statistics_read_completion_values st st' :
  tasks st' = tasks st ->
  totalDays st' = totalDays st ->
  sameCompletions (dailyCompletion st) (dailyCompletion st') ->
  forall fuel now taskId,
    getTaskCompletionRate fuel now taskId st'
    = getTaskCompletionRate fuel now taskId st
    /\ getStreak now taskId st' = getStreak now taskId st
    /\ getWeeklySummary fuel now st' = getWeeklySummary fuel now st.
Proof.
  intros Htasks Hdays Hsame fuel now taskId. split; [|split].
  - apply getTaskCompletionRate_same; assumption.
  - apply getStreak_same. exact Hsame.
  - apply getWeeklySummary_same; assumption.
Qed.

Lemma statistics_read_completion_values_witness :
  getWeeklySummary 8 (20 * msPerDay)
    (toggleTaskCompletion 1 18 (toggleTaskCompletion 1 18 twoDayStreak))
  = getWeeklySummary 8 (20 * msPerDay) twoDayStreak.
Proof.
  refine (proj2 (proj2 (statistics_read_completion_values twoDayStreak
    (toggleTaskCompletion 1 18 (toggleTaskCompletion 1 18 twoDayStreak))
    _ _ _ 8%nat (20 * msPerDay) 1)));
    [reflexivity|reflexivity|].
  intros date taskId.
  destruct (decide ((date, taskId) = (18, 1))) as [Heq|Hne].
  - injection Heq as -> ->. rewrite !isCompleted_toggle, negb_involutive. reflexivity.
  - rewrite !isCompleted_toggle_other by exact Hne. reflexivity.
Defined.

Lemma roundHalfUp_percent_table :
  Forall (fun n : nat =>
            Forall (fun c : nat =>
                      (0 <= roundHalfUp (100 * Z.of_nat c) (Z.of_nat n) <= 100)
                      /\ (roundHalfUp (100 * Z.of_nat c) (Z.of_nat n) = 100 <-> c = n)
                      /\ (roundHalfUp (100 * Z.of_nat c) (Z.of_nat n) = 0 <-> c = 0%nat))
                   (seq 0 (S n)))
         (seq 1 39).
Proof. apply (bool_decide_eq_true_1 _). vm_compute. reflexivity. Qed.

Lemma roundHalfUp_percent c n :
  1 <= n <= 39 -> 0 <= c <= n ->
  0 <= roundHalfUp (100 * c) n <= 100
  /\ (roundHalfUp (100 * c) n = 100 <-> c = n)
  /\ (roundHalfUp (100 * c) n = 0 <-> c = 0).
Proof.
  intros Hn Hc.
  pose proof roundHalfUp_percent_table as H.
  rewrite Forall_forall in H. specialize (H (Z.to_nat n)).
  rewrite Forall_forall in H. specialize (fun Hin => H Hin (Z.to_nat c)).
  rewrite !Z2Nat.id in H by lia.
  destruct H as (Hr & H100 & H0); [apply elem_of_seq; lia|apply elem_of_seq; lia|].
  split; [exact Hr|]. split; [rewrite H100|rewrite H0]; lia.
Qed.

(** X11: for a tracking window of 1 to 39 days the completion rate is a
    whole number from 0 to 100; it is 100 exactly when every day of the
    window is completed and 0 exactly when none is. *)
Theorem getTaskCompletionRate_range fuel now taskId st :
  1 <= totalDays st <= 39 ->
  (Z.to_nat (totalDays st) < fuel)%nat ->
  let completed :=
    completedDaysIn (dailyCompletion st) taskId
      (dateStr now - totalDays st + 1) (Z.to_nat (totalDays st)) in
  exists rate,
    getTaskCompletionRate fuel now taskId st = Some (JS.of_Z rate)
    /\ 0 <= rate <= 100
    /\ (rate = 100 <-> completed = totalDays st)
    /\ (rate = 0 <-> completed = 0).
Proof.
  intros Hn Hfuel completed.
  pose proof (completedDaysIn_bounds (dailyCompletion st) taskId
                (dateStr now - totalDays st + 1) (Z.to_nat (totalDays st))) as Hc.
  fold completed in Hc.
  exists (roundHalfUp (100 * completed) (totalDays st)). split.
  - rewrite getTaskCompletionRate_count by exact Hfuel. f_equal.
    apply percent_exact; [exact Hn|lia].
  - apply roundHalfUp_percent; [exact Hn|lia].
Qed.

Lemma getTaskCompletionRate_range_witness :
  exists rate,
    getTaskCompletionRate 8 (20 * msPerDay) 1 twoDayStreak = Some (JS.of_Z rate)
    /\ 0 <= rate <= 100.
Proof.
  destruct (getTaskCompletionRate_range 8 (20 * msPerDay) 1 twoDayStreak)
    as (rate & Hrate & Hrange & _); [vm_compute; split; discriminate|vm_compute; lia|].
  exists rate. split; assumption.
Defined.

(** ** Whole numbers in binary64 *)

(** The sum of two whole numbers is exact below 2^53: [binary_normalize]
    gives a mantissa of 53 digits, and the bits that the rounding of the
    sum shifts out are zeros. *)

Lemma iter_pos_Pos_iter {A} (f : A -> A) n : forall x,
  SpecFloat.iter_pos f n x = Pos.iter f x n.
Proof.
  induction n as [n IH|n IH|]; intros x; simpl.
  - rewrite !IH. rewrite <- !Pos.iter_swap. reflexivity.
  - rewrite !IH. reflexivity.
  - reflexivity.
Qed.

Lemma shr_1_exact q :
  shr_1 (Build_shr_record (Zpos (xO q)) false false)
  = Build_shr_record (Zpos q) false false.
Proof. reflexivity. Qed.

Lemma iter_shr_1_exact n : forall q,
  Pos.iter shr_1 (Build_shr_record (Zpos (Pos.iter xO q n)) false false) n
  = Build_shr_record (Zpos q) false false.
Proof.
  induction n as [|n IH] using Pos.peano_ind; intros q.
  - reflexivity.
  - rewrite Pos.iter_succ_r. rewrite (Pos.iter_succ n positive xO). rewrite shr_1_exact.
    apply IH.
Qed.

Lemma digits2_pos_iter p n :
  digits2_pos (Pos.iter xO p n) = (digits2_pos p + n)%positive.
Proof.
  induction n as [|n IH] using Pos.peano_ind.
  - simpl. lia.
  - rewrite Pos.iter_succ. simpl. rewrite IH. lia.
Qed.

Lemma Zpos_iter p n : Zpos (Pos.iter xO p n) = Zpos p * 2 ^ Zpos n.
Proof.
  induction n as [|n IH] using Pos.peano_ind.
  - simpl. lia.
  - rewrite Pos.iter_succ, Pos2Z.inj_xO, IH, Pos2Z.inj_succ, Z.pow_succ_r by lia.
    lia.
Qed.

Lemma digits2_pos_shl p k :
  0 <= k -> Zpos (digits2_pos (shiftl_pos p k)) = Zpos (digits2_pos p) + k.
Proof.
  intros Hk. destruct k as [|k|k]; simpl; [lia| |lia].
  rewrite digits2_pos_iter. lia.
Qed.

Lemma Zpos_shl p k : 0 <= k -> Zpos (shiftl_pos p k) = Zpos p * 2 ^ k.
Proof.
  intros Hk. destruct k as [|k|k]; [simpl; lia|apply Zpos_iter|lia].
Qed.

Lemma shl_shl p a b : 0 <= a -> 0 <= b -> shiftl_pos (shiftl_pos p a) b = shiftl_pos p (a + b).
Proof.
  intros Ha Hb. apply Pos2Z.inj. rewrite !Zpos_shl by lia.
  rewrite Z.pow_add_r by lia. lia.
Qed.

Lemma shl_align_shl mx ex ex' :
  ex' <= ex -> shl_align mx ex ex' = (shiftl_pos mx (ex - ex'), ex').
Proof.
  intros Hle. unfold shl_align, shiftl_pos.
  destruct (ex' - ex) as [|d|d] eqn:Hd; [|lia|].
  - replace (ex - ex') with 0 by lia. f_equal. lia.
  - replace (ex - ex') with (Zpos d) by lia. reflexivity.
Qed.

Lemma shl_align_keep mx ex ex' :
  ex <= ex' -> shl_align mx ex ex' = (mx, ex).
Proof.
  intros Hle. unfold shl_align.
  destruct (ex' - ex) as [|d|d] eqn:Hd; [reflexivity|reflexivity|lia].
Qed.

Lemma fexp_small D : 0 < D <= 53 -> fexp JS.prec JS.emax D = D - 53.
Proof. intros HD. unfold fexp, SpecFloat.emin, JS.prec, JS.emax. lia. Qed.

Lemma shr_fexp_canonical Q E :
  Zpos (digits2_pos Q) = 53 -> -1074 <= E ->
  shr_fexp JS.prec JS.emax (Zpos Q) E loc_Exact
  = (Build_shr_record (Zpos Q) false false, E).
Proof.
  intros HQ HE. unfold shr_fexp, Zdigits2. rewrite HQ.
  replace (fexp JS.prec JS.emax (53 + E) - E) with 0; [reflexivity|].
  unfold fexp, SpecFloat.emin, JS.prec, JS.emax. lia.
Qed.

Lemma shr_fexp_trailing Q n E :
  Zpos (digits2_pos Q) = 53 -> -1074 <= E ->
  shr_fexp JS.prec JS.emax (Zpos (Pos.iter xO Q n)) (E - Zpos n) loc_Exact
  = (Build_shr_record (Zpos Q) false false, E).
Proof.
  intros HQ HE. unfold shr_fexp, Zdigits2. rewrite digits2_pos_iter.
  replace (fexp JS.prec JS.emax (Zpos (digits2_pos Q + n) + (E - Zpos n)) - (E - Zpos n))
    with (Zpos n).
  2:{ rewrite Pos2Z.inj_add, HQ. unfold fexp, SpecFloat.emin, JS.prec, JS.emax. lia. }
  simpl. rewrite iter_pos_Pos_iter, iter_shr_1_exact. f_equal. lia.
Qed.

Lemma binary_round_aux_trailing Q n E :
  Zpos (digits2_pos Q) = 53 -> -1074 <= E ->
  binary_round_aux JS.prec JS.emax false (Zpos (Pos.iter xO Q n)) (E - Zpos n) loc_Exact
  = binary_round_aux JS.prec JS.emax false (Zpos Q) E loc_Exact.
Proof.
  intros HQ HE. unfold binary_round_aux.
  rewrite shr_fexp_trailing, shr_fexp_canonical by assumption. reflexivity.
Qed.

Lemma binary_round_aux_canonical Q E :
  Zpos (digits2_pos Q) = 53 -> -1074 <= E <= 0 ->
  binary_round_aux JS.prec JS.emax false (Zpos Q) E loc_Exact = S754_finite false Q E.
Proof.
  intros HQ HE. unfold binary_round_aux.
  rewrite shr_fexp_canonical by (assumption || lia). simpl.
  rewrite shr_fexp_canonical by (assumption || lia). simpl.
  change (JS.emax - JS.prec) with 971.
  destruct (Z.leb_spec E 971); [reflexivity|lia].
Qed.

Lemma binary_round_0 p :
  Zpos (digits2_pos p) <= 53 ->
  binary_round JS.prec JS.emax false p 0
  = binary_round_aux JS.prec JS.emax false
      (Zpos (shiftl_pos p (53 - Zpos (digits2_pos p)))) (Zpos (digits2_pos p) - 53) loc_Exact.
Proof.
  intros HD. unfold binary_round.
  rewrite Z.add_0_r, fexp_small by lia.
  rewrite shl_align_shl by lia.
  replace (0 - (Zpos (digits2_pos p) - 53)) with (53 - Zpos (digits2_pos p)) by lia.
  reflexivity.
Qed.

Lemma binary_round_shl p k :
  Zpos (digits2_pos p) <= 53 -> 0 <= k ->
  binary_round JS.prec JS.emax false (shiftl_pos p k) (- k) = binary_round JS.prec JS.emax false p 0.
Proof.
  intros HD Hk. rewrite binary_round_0 by exact HD.
  set (D := Zpos (digits2_pos p)) in *.
  assert (Zpos (digits2_pos (shiftl_pos p (53 - D))) = 53) as HQ.
  { rewrite digits2_pos_shl by lia. fold D. lia. }
  unfold binary_round. rewrite digits2_pos_shl by exact Hk. fold D.
  replace (D + k + - k) with D by lia. rewrite fexp_small by (unfold D; lia).
  destruct (Z_le_gt_dec (D - 53) (- k)) as [Hle|Hgt].
  - rewrite shl_align_shl by exact Hle. rewrite shl_shl by lia.
    replace (k + (- k - (D - 53))) with (53 - D) by lia. reflexivity.
  - rewrite shl_align_keep by lia.
    replace (shiftl_pos p k) with (Pos.iter xO (shiftl_pos p (53 - D)) (Z.to_pos (k - (53 - D)))).
    2:{ change (Pos.iter xO (shiftl_pos p (53 - D)) (Z.to_pos (k - (53 - D))))
          with (shiftl_pos (shiftl_pos p (53 - D)) (Zpos (Z.to_pos (k - (53 - D))))).
        rewrite Z2Pos.id by lia. rewrite shl_shl by lia. f_equal. lia. }
    replace (- k) with (D - 53 - Zpos (Z.to_pos (k - (53 - D))))
      by (rewrite Z2Pos.id by lia; lia).
    apply binary_round_aux_trailing; [exact HQ|lia].
Qed.

Lemma of_Z_pos p :
  Zpos (digits2_pos p) <= 53 ->
  JS.of_Z (Zpos p)
  = S754_finite false (shiftl_pos p (53 - Zpos (digits2_pos p))) (Zpos (digits2_pos p) - 53).
Proof.
  intros HD. unfold JS.of_Z, binary_normalize. rewrite binary_round_0 by exact HD.
  apply binary_round_aux_canonical; [|lia].
  rewrite digits2_pos_shl by lia. lia.
Qed.

Lemma digits2_pos_size p : digits2_pos p = Pos.size p.
Proof. induction p; simpl; congruence. Qed.

Lemma digits2_pos_bound p : Zpos p < 2 ^ 53 -> Zpos (digits2_pos p) <= 53.
Proof.
  intros Hp. rewrite digits2_pos_size.
  pose proof (Pos.size_le p) as Hle.
  apply Pos2Z.pos_le_pos in Hle. rewrite Pos2Z.inj_pow in Hle.
  change (Z.pos p~0) with (2 * Z.pos p) in Hle.
  destruct (Z_le_gt_dec (Zpos (Pos.size p)) 53) as [|Hgt]; [assumption|].
  assert (2 ^ 54 <= 2 ^ Zpos (Pos.size p)) by (apply Z.pow_le_mono_r; lia).
  change (2 ^ 54) with (2 * 2 ^ 53) in *. lia.
Qed.

Lemma js_add_of_Z_pos pa pb :
  Zpos (pa + pb) < 2 ^ 53 ->
  js_add (JS.of_Z (Zpos pa)) (JS.of_Z (Zpos pb)) = JS.of_Z (Zpos (pa + pb)).
Proof.
  intros Hsum.
  assert (Zpos (digits2_pos pa) <= 53) as Ha by (apply digits2_pos_bound; lia).
  assert (Zpos (digits2_pos pb) <= 53) as Hb by (apply digits2_pos_bound; lia).
  assert (Zpos (digits2_pos (pa + pb)) <= 53) as Hab by (apply digits2_pos_bound; lia).
  rewrite (of_Z_pos pa), (of_Z_pos pb) by assumption.
  set (Da := Zpos (digits2_pos pa)) in *. set (Db := Zpos (digits2_pos pb)) in *.
  unfold js_add, SFadd. cbn [cond_Zopp].
  set (ez := Z.min (Da - 53) (Db - 53)).
  rewrite !shl_align_shl by (unfold ez; lia). cbn [fst].
  rewrite !shl_shl by (unfold ez; lia).
  replace (53 - Da + (Da - 53 - ez)) with (- ez) by lia.
  replace (53 - Db + (Db - 53 - ez)) with (- ez) by lia.
  change (Zpos (shiftl_pos pa (- ez)) + Zpos (shiftl_pos pb (- ez)))
    with (Zpos (shiftl_pos pa (- ez) + shiftl_pos pb (- ez))).
  unfold binary_normalize.
  replace (shiftl_pos pa (- ez) + shiftl_pos pb (- ez))%positive with (shiftl_pos (pa + pb) (- ez)).
  2:{ apply Pos2Z.inj. rewrite Pos2Z.inj_add, !Zpos_shl by (unfold ez; lia). lia. }
  replace ez with (- (- ez)) at 2 by lia.
  apply binary_round_shl; [exact Hab|unfold ez; lia].
Qed.

Lemma js_add_of_Z a b :
  0 <= a -> 0 <= b -> a + b < 2 ^ 53 ->
  js_add (JS.of_Z a) (JS.of_Z b) = JS.of_Z (a + b).
Proof.
  intros Ha Hb Hsum.
  destruct a as [|pa|pa]; [|destruct b as [|pb|pb]|]; try lia.
  - destruct b as [|pb|pb]; [reflexivity| |lia].
    rewrite Z.add_0_l, of_Z_pos by (apply digits2_pos_bound; lia). reflexivity.
  - rewrite Z.add_0_r, of_Z_pos by (apply digits2_pos_bound; lia). reflexivity.
  - apply js_add_of_Z_pos. exact Hsum.
Qed.

(** ** The overall score, the best streak and the priority breakdown *)

Lemma completionRateOf_range now st taskId :
  1 <= totalDays st <= 39 -> 0 <= completionRateOf now st taskId <= 100.
Proof.
  intros Hn. unfold completionRateOf. apply roundHalfUp_percent; [exact Hn|].
  pose proof (completedDaysIn_bounds (dailyCompletion st) taskId
                (dateStr now - totalDays st + 1) (Z.to_nat (totalDays st))).
  lia.
Qed.

Lemma sumRates_range now st ts :
  1 <= totalDays st <= 39 ->
  0 <= sumRates now st ts <= 100 * Z.of_nat (length ts).
Proof.
  intros Hn. induction ts as [|task ts IH]; simpl; [lia|].
  pose proof (completionRateOf_range now st (id task) Hn). lia.
Qed.

(** The [reduce] adds up the whole rates of the tasks, exactly. *)
Lemma sumCompletionRates_spec fuel now st ts :
  1 <= totalDays st <= 39 ->
  (Z.to_nat (totalDays st) < fuel)%nat ->
  forall sum,
    0 <= sum -> sum + 100 * Z.of_nat (length ts) < 2 ^ 53 ->
    sumCompletionRates fuel now st (JS.of_Z sum) ts
    = Some (JS.of_Z (sum + sumRates now st ts)).
Proof.
  intros Hn Hfuel. induction ts as [|task ts IH]; intros sum Hsum Hbound.
  - simpl. rewrite Z.add_0_r. reflexivity.
  - cbn [sumCompletionRates].
    rewrite getTaskCompletionRate_count by exact Hfuel. cbn [mbind option_bind].
    pose proof (completionRateOf_range now st (id task) Hn) as Hr.
    pose proof (completedDaysIn_bounds (dailyCompletion st) (id task)
                  (dateStr now - totalDays st + 1) (Z.to_nat (totalDays st))) as Hc.
    rewrite percent_exact by lia.
    fold (completionRateOf now st (id task)).
    cbn [length] in Hbound. rewrite Nat2Z.inj_succ in Hbound.
    rewrite js_add_of_Z by lia. rewrite IH by lia.
    cbn [sumRates foldr]. do 2 f_equal. unfold sumRates. lia.
Qed.

(** The average of up to 10 whole rates: the binary64 quotient, rounded by
    [Math.round], is the exact quotient rounded half up. *)
Lemma average_table :
  Forall (fun n : nat =>
            Forall (fun s : nat =>
                      JS.Math_round (JS.div (JS.of_Z (Z.of_nat s)) (JS.of_Z (Z.of_nat n)))
                      = JS.of_Z (roundHalfUp (Z.of_nat s) (Z.of_nat n)))
                   (seq 0 (S (100 * n))))
         (seq 1 10).
Proof. apply (bool_decide_eq_true_1 _). vm_compute. reflexivity. Qed.

Lemma average_exact s n :
  1 <= n <= 10 -> 0 <= s <= 100 * n ->
  JS.Math_round (JS.div (JS.of_Z s) (JS.of_Z n)) = JS.of_Z (roundHalfUp s n).
Proof.
  intros Hn Hs.
  pose proof average_table as H.
  rewrite Forall_forall in H. specialize (H (Z.to_nat n)).
  rewrite Forall_forall in H. specialize (fun Hin => H Hin (Z.to_nat s)).
  rewrite !Z2Nat.id in H by lia.
  apply H; apply elem_of_seq; lia.
Qed.

Lemma roundHalfUp_average_range s n :
  1 <= n -> 0 <= s <= 100 * n -> 0 <= roundHalfUp s n <= 100.
Proof.
  intros Hn Hs. unfold roundHalfUp. split.
  - apply Z.div_pos; lia.
  - apply Z.lt_succ_r. apply Z.div_lt_upper_bound; lia.
Qed.

(** The rounded average of a non-empty list of at most 10 tasks. *)
Lemma averageRate_spec fuel now st ts :
  1 <= totalDays st <= 39 ->
  (Z.to_nat (totalDays st) < fuel)%nat ->
  ts <> [] -> (length ts <= 10)%nat ->
  (total ← sumCompletionRates fuel now st (JS.of_Z 0) ts;
   Some (JS.Math_round (JS.div total (JS.of_Z (Z.of_nat (length ts))))))
  = Some (JS.of_Z (roundHalfUp (sumRates now st ts) (Z.of_nat (length ts)))).
Proof.
  intros Hn Hfuel Hne Hlen.
  assert (1 <= Z.of_nat (length ts)) as Hpos by (destruct ts; [congruence|simpl; lia]).
  rewrite sumCompletionRates_spec by (try assumption; lia).
  cbn [mbind option_bind]. rewrite Z.add_0_l. f_equal.
  pose proof (sumRates_range now st ts Hn).
  apply average_exact; lia.
Qed.

(** X12: [getOverallScore] is 0 when there is no task.  With 1 to 10
    tasks and a window of 1 to 39 days it is the mean of the tasks'
    completion rates rounded half up, a whole number from 0 to 100. *)
Theorem getOverallScore_spec fuel now st :
  (tasks st = [] -> getOverallScore fuel now st = Some (JS.of_Z 0))
  /\ (tasks st <> [] -> (length (tasks st) <= 10)%nat ->
      1 <= totalDays st <= 39 ->
      (Z.to_nat (totalDays st) < fuel)%nat ->
      let mean :=
        roundHalfUp (sumRates now st (tasks st)) (Z.of_nat (length (tasks st))) in
      getOverallScore fuel now st = Some (JS.of_Z mean)
      /\ 0 <= mean <= 100).
Proof.
  split.
  - intros Hnil. unfold getOverallScore. rewrite Hnil. reflexivity.
  - intros Hne Hlen Hn Hfuel mean. split.
    + unfold getOverallScore.
      destruct (tasks st) as [|task ts] eqn:Hts; [congruence|].
      change (length (task :: ts) =? 0)%nat with false. cbn match.
      apply averageRate_spec; assumption.
    + pose proof (sumRates_range now st (tasks st) Hn).
      apply roundHalfUp_average_range; [destruct (tasks st); [congruence|simpl; lia]|lia].
Qed.

Lemma getOverallScore_spec_witness :
  getOverallScore 8 (20 * msPerDay) (addTask 2 2 typingHigh) = Some (JS.of_Z 22).
Proof.
  refine (proj1 (proj2 (getOverallScore_spec 8 (20 * msPerDay) (addTask 2 2 typingHigh))
                   _ _ _ _)).
  - vm_compute. discriminate.
  - vm_compute. lia.
  - vm_compute. split; discriminate.
  - vm_compute. lia.
Defined.

Lemma getStreak_range now taskId st : 0 <= getStreak now taskId st <= 30.
Proof.
  pose proof (getStreak_loop_spec now taskId (dailyCompletion st) 30 0 0) as [H _].
  exact H.
Qed.

(** X13: the Best Streak card shows 0 when there is no task and otherwise
    the longest streak among the tasks: it is at least the streak of every
    task, it is the streak of one of them, and it lies between 0 and 30. *)
Theorem bestStreak_spec now st :
  0 <= bestStreak now st <= 30
  /\ (tasks st = [] -> bestStreak now st = 0)
  /\ (forall task, task ∈ tasks st ->
        getStreak now (id task) st <= bestStreak now st)
  /\ (tasks st <> [] ->
      exists task, task ∈ tasks st
                   /\ bestStreak now st = getStreak now (id task) st).
Proof.
  unfold bestStreak. induction (tasks st) as [|task ts IH]; simpl.
  - repeat split; try lia; [intros task Hin; inversion Hin|congruence].
  - destruct IH as (Hr & _ & Hall & Hex).
    pose proof (getStreak_range now (id task) st) as Hs.
    split; [lia|]. split; [discriminate|]. split.
    + intros task' Hin. apply elem_of_cons in Hin as [->|Hin]; [lia|].
      specialize (Hall _ Hin). lia.
    + intros _. destruct (Z.max_spec (getStreak now (id task) st)
                  (foldr Z.max 0 (map (fun task0 => getStreak now (id task0) st) ts)))
        as [[Hlt ->]|[Hge ->]].
      * destruct ts as [|task' ts'].
        { simpl in *. exists task. split; [left|lia]. }
        destruct Hex as (task'' & Hin & Heq); [discriminate|].
        exists task''. split; [right; exact Hin|exact Heq].
      * exists task. split; [left|reflexivity].
Qed.

Lemma bestStreak_spec_witness :
  exists task, task ∈ tasks twoDayStreak
               /\ bestStreak (20 * msPerDay) twoDayStreak
                  = getStreak (20 * msPerDay) (id task) twoDayStreak.
Proof.
  refine (proj2 (proj2 (proj2 (bestStreak_spec (20 * msPerDay) twoDayStreak))) _).
  vm_compute. discriminate.
Defined.

Lemma priorityStat_spec fuel now st p :
  let group := filter (fun task => priority task = p) (tasks st) in
  (group = [] ->
   priorityStat fuel now st p
   = Some {| stat_priority := p; avgCompletion := JS.of_Z 0; taskCount := 0 |})
  /\ (group <> [] -> (length group <= 10)%nat ->
      1 <= totalDays st <= 39 -> (Z.to_nat (totalDays st) < fuel)%nat ->
      priorityStat fuel now st p
      = Some {| stat_priority := p;
                avgCompletion :=
                  JS.of_Z (roundHalfUp (sumRates now st group)
                                       (Z.of_nat (length group)));
                taskCount := length group |}).
Proof.
  intros group. unfold priorityStat. fold group. split.
  - intros ->. reflexivity.
  - intros Hne Hlen Hn Hfuel.
    replace (0 <? length group)%nat with true
      by (destruct group; [congruence|reflexivity]).
    rewrite averageRate_spec by assumption. reflexivity.
Qed.

(** X14: the Priority Breakdown panel has the three cells high, medium,
    low, in this order; the task counts of the cells add up to the number
    of tasks; the cell of a priority without tasks shows 0; and with a
    window of 1 to 39 days a cell of 1 to 10 tasks shows the mean of their
    completion rates rounded half up. *)
Theorem priorityBreakdown_spec fuel now st :
  1 <= totalDays st <= 39 ->
  (Z.to_nat (totalDays st) < fuel)%nat ->
  (length (tasks st) <= 10)%nat ->
  exists cells,
    priorityBreakdown fuel now st = Some cells
    /\ map stat_priority cells = [high; medium; low]
    /\ (foldr Nat.add 0 (map taskCount cells) = length (tasks st))%nat
    /\ Forall (fun cell =>
                 let group :=
                   filter (fun task => priority task = stat_priority cell) (tasks st) in
                 taskCount cell = length group
                 /\ avgCompletion cell
                    = match group with
                      | [] => JS.of_Z 0
                      | _ :: _ =>
                          JS.of_Z (roundHalfUp (sumRates now st group)
                                               (Z.of_nat (length group)))
                      end) cells.
Proof.
  intros Hn Hfuel Hlen.
  assert (forall p, exists cell,
            priorityStat fuel now st p = Some cell
            /\ stat_priority cell = p
            /\ taskCount cell
               = length (filter (fun task => priority task = p) (tasks st))
            /\ avgCompletion cell
               = match filter (fun task => priority task = p) (tasks st) with
                 | [] => JS.of_Z 0
                 | _ :: _ =>
                     JS.of_Z (roundHalfUp
                       (sumRates now st (filter (fun task => priority task = p) (tasks st)))
                       (Z.of_nat (length (filter (fun task => priority task = p) (tasks st)))))
                 end) as Hcell.
  { intros p. destruct (priorityStat_spec fuel now st p) as [Hnil Hcons].
    destruct (filter (fun task => priority task = p) (tasks st)) as [|t g] eqn:Hg.
    - eexists. split; [apply Hnil; reflexivity|]. repeat split.
    - eexists. split; [apply Hcons; try assumption; [discriminate|]|repeat split].
      pose proof (length_filter (fun task => priority task = p) (tasks st)) as Hle.
      rewrite Hg in Hle. lia. }
  destruct (Hcell high) as (ch & Hh & Hph & Hch & Hah).
  destruct (Hcell medium) as (cm & Hm & Hpm & Hcm & Ham).
  destruct (Hcell low) as (cl & Hl & Hpl & Hcl & Hal).
  exists [ch; cm; cl]. split; [|split; [|split]].
  - unfold priorityBreakdown. cbn [mapM]. rewrite Hh, Hm, Hl. reflexivity.
  - simpl. congruence.
  - simpl. rewrite Hch, Hcm, Hcl.
    pose proof (sort_Permutation byPriority (tasks st)) as Hperm.
    rewrite sort_byPriority_groups in Hperm.
    apply Permutation_length in Hperm. rewrite !length_app in Hperm. lia.
  - repeat constructor; simpl; rewrite ?Hph, ?Hpm, ?Hpl; assumption.
Qed.

Lemma priorityBreakdown_spec_witness :
  exists cells,
    priorityBreakdown 8 (20 * msPerDay) (addTask 2 2 typingHigh) = Some cells
    /\ map stat_priority cells = [high; medium; low]
    /\ map taskCount cells = [1; 1; 0]%nat.
Proof.
  destruct (priorityBreakdown_spec 8 (20 * msPerDay) (addTask 2 2 typingHigh))
    as (cells & Hcells & Hprio & _ & Hall);
    [vm_compute; split; discriminate|vm_compute; lia|vm_compute; lia|].
  exists cells. split; [exact Hcells|]. split; [exact Hprio|].
  destruct cells as [|ch [|cm [|cl [|c cells]]]]; try discriminate.
  injection Hprio as Hh Hm Hl.
  apply Forall_cons in Hall as [[Hch _] Hall].
  apply Forall_cons in Hall as [[Hcm _] Hall].
  apply Forall_cons in Hall as [[Hcl _] _].
  simpl. rewrite Hch, Hcm, Hcl, Hh, Hm, Hl. reflexivity.
Defined.

(** ** The statistics after [removeTask] *)

Lemma getStreak_same_id now taskId st st' :
  (forall date, isCompleted (dailyCompletion st') date taskId
                = isCompleted (dailyCompletion st) date taskId) ->
  getStreak now taskId st' = getStreak now taskId st.
Proof.
  intros Hsame. unfold getStreak. generalize 0 at 1 3. generalize 0.
  generalize 30%nat. intros n.
  induction n as [|n IH]; intros streak i; [reflexivity|].
  simpl. rewrite Hsame.
  destruct (isCompleted (dailyCompletion st) _ taskId); [apply IH|reflexivity].
Qed.

Lemma sumCompletionRates_ext fuel now st st' ts :
  (forall task, task ∈ ts ->
     getTaskCompletionRate fuel now (id task) st'
     = getTaskCompletionRate fuel now (id task) st) ->
  forall sum,
    sumCompletionRates fuel now st' sum ts = sumCompletionRates fuel now st sum ts.
Proof.
  induction ts as [|task ts IH]; intros Hext sum; [reflexivity|].
  cbn [sumCompletionRates]. rewrite Hext by left.
  destruct (getTaskCompletionRate fuel now (id task) st) as [rate|]; [|reflexivity].
  cbn [mbind option_bind]. apply IH. intros task' Hin. apply Hext. right. exact Hin.
Qed.

(** X15: after [removeTask taskId] a query for the removed id gives a
    streak of 0 and, with a window of 1 to 39 days, a completion rate of 0;
    the rate and the streak of every other id are what they were; and the
    overall score is the one of the remaining tasks over the log as it was
    before, so the removed task no longer counts in it. *)
Theorem removeTask_statistics fuel now taskId st :
  let st' := removeTask taskId st in
  getStreak now taskId st' = 0
  /\ (1 <= totalDays st <= 39 -> (Z.to_nat (totalDays st) < fuel)%nat ->
      getTaskCompletionRate fuel now taskId st' = Some (JS.of_Z 0))
  /\ (forall taskId', taskId' <> taskId ->
        getTaskCompletionRate fuel now taskId' st'
        = getTaskCompletionRate fuel now taskId' st
        /\ getStreak now taskId' st' = getStreak now taskId' st)
  /\ getOverallScore fuel now st'
     = getOverallScore fuel now
         (set_tasks (filter (fun task => id task <> taskId) (tasks st)) st).
Proof.
  intros st'. split; [|split; [|split]].
  - unfold st', getStreak. cbn [getStreak_loop].
    rewrite isCompleted_removeTask. reflexivity.
  - intros Hn Hfuel.
    rewrite getTaskCompletionRate_count by exact Hfuel.
    change (totalDays st') with (totalDays st).
    replace (completedDaysIn (dailyCompletion st') taskId
               (dateStr now - totalDays st + 1) (Z.to_nat (totalDays st))) with 0.
    + rewrite percent_exact by lia. unfold roundHalfUp.
      rewrite Z.div_small by lia. reflexivity.
    + unfold completedDaysIn. rewrite filter_none; [reflexivity|].
      apply Forall_forall. intros day _. unfold st'.
      rewrite isCompleted_removeTask. discriminate.
  - intros taskId' Hne. split.
    + apply getTaskCompletionRate_same_id; [reflexivity|].
      intros date. apply isCompleted_removeTask_other, Hne.
    + apply getStreak_same_id. intros date.
      apply isCompleted_removeTask_other, Hne.
  - unfold getOverallScore.
    change (tasks st') with (filter (fun task => id task <> taskId) (tasks st)).
    cbn [set_tasks tasks].
    destruct (length (filter (fun task => id task <> taskId) (tasks st)) =? 0)%nat;
      [reflexivity|].
    rewrite (sumCompletionRates_ext fuel now
               (set_tasks (filter (fun task => id task <> taskId) (tasks st)) st) st');
      [reflexivity|].
    intros task Hin. apply list_elem_of_filter in Hin as [Hne _].
    apply getTaskCompletionRate_same_id; [reflexivity|].
    intros date. exact (isCompleted_removeTask_other taskId (id task) date st Hne).
Qed.

Lemma removeTask_statistics_witness :
  getTaskCompletionRate 8 (20 * msPerDay) 1 (removeTask 1 twoDayStreak)
  = Some (JS.of_Z 0).
Proof.
  refine (proj1 (proj2 (removeTask_statistics 8 (20 * msPerDay) 1 twoDayStreak)) _ _).
  - vm_compute. split; discriminate.
  - vm_compute. lia.
Defined.

(** ** The name of a new task *)

Lemma trimStart_split s :
  exists pre, s = pre ++ JS.trimStart s
              /\ Forall (fun c => JS.is_white_space c = true) pre.
Proof.
  induction s as [|c s IH]; [exists []; split; [reflexivity|constructor]|].
  simpl. destruct (JS.is_white_space c) eqn:Hc.
  - destruct IH as (pre & Hs & Hpre). exists (c :: pre). split.
    + simpl. f_equal. exact Hs.
    + constructor; assumption.
  - exists []. split; [reflexivity|constructor].
Qed.

Lemma trimStart_head s c r :
  JS.trimStart s = c :: r -> JS.is_white_space c = false.
Proof.
  induction s as [|c' s IH]; [discriminate|]. simpl.
  destruct (JS.is_white_space c') eqn:Hc; [exact IH|].
  intros H. injection H as <- _. exact Hc.
Qed.

Lemma trimStart_blank s :
  Forall (fun c => JS.is_white_space c = true) s -> JS.trimStart s = [].
Proof.
  induction 1 as [|c s Hc Hs IH]; [reflexivity|]. simpl. rewrite Hc. exact IH.
Qed.

(** X16: a name of white space only is rejected: [addTask] leaves the
    state as it is.  Otherwise the new task is named by the typed text
    without the white space around it: the text is white space, the name,
    white space, and the name neither starts nor ends with white space. *)
Theorem addTask_name idNow createdNow st :
  (Forall (fun c => JS.is_white_space c = true) (newTaskName st) ->
   addTask idNow createdNow st = st)
  /\ (let nm := name (newTask idNow createdNow st) in
      (exists pre post,
         newTaskName st = pre ++ nm ++ post
         /\ Forall (fun c => JS.is_white_space c = true) pre
         /\ Forall (fun c => JS.is_white_space c = true) post)
      /\ (forall c, head nm = Some c -> JS.is_white_space c = false)
      /\ (forall c, last nm = Some c -> JS.is_white_space c = false)).
Proof.
  split.
  - intros Hblank. unfold addTask, JS.trim.
    rewrite (trimStart_blank _ Hblank). reflexivity.
  - cbn [name newTask]. unfold JS.trim, JS.trimEnd.
    destruct (trimStart_split (newTaskName st)) as (pre & Hs & Hpre).
    set (s1 := JS.trimStart (newTaskName st)) in *.
    destruct (trimStart_split (rev s1)) as (pre' & Hr & Hpre').
    set (x := JS.trimStart (rev s1)) in *.
    assert (s1 = rev x ++ rev pre') as Hs1.
    { rewrite <- rev_app_distr, <- Hr, rev_involutive. reflexivity. }
    split; [|split].
    + exists pre, (rev pre'). split; [rewrite <- Hs1; exact Hs|].
      split; [exact Hpre|].
      apply Forall_forall. intros c Hc. rewrite Forall_forall in Hpre'.
      apply Hpre'. apply list_elem_of_In. apply in_rev.
      apply list_elem_of_In. exact Hc.
    + intros c Hc. destruct (rev x) as [|c' r] eqn:Hx; [discriminate|].
      injection Hc as ->. simpl in Hs1.
      apply (trimStart_head (newTaskName st) c (r ++ rev pre')). exact Hs1.
    + intros c Hc. destruct x as [|c' r] eqn:Hx.
      * discriminate.
      * simpl in Hc. rewrite last_snoc in Hc. injection Hc as ->.
        apply (trimStart_head (rev s1) c r). exact Hx.
Qed.

Lemma addTask_name_witness :
  addTask 5 5 (set_newTaskName (JS.of_ascii "   ") twoDayStreak)
  = set_newTaskName (JS.of_ascii "   ") twoDayStreak.
Proof.
  refine (proj1 (addTask_name 5 5 (set_newTaskName (JS.of_ascii "   ") twoDayStreak)) _).
  repeat constructor.
Defined.

(** ** The tasks store *)

Section PutKeys.
Context {V : Type}.
Implicit Types (s : list (Z * V)) (k : Z) (v : V).

Lemma put_key_in k v s : k ∈ (put k v s).*1.
Proof.
  induction s as [|[k' v'] s IH]; simpl; [left|].
  destruct (k <? k'); [left|]. destruct (k =? k'); [left|right; exact IH].
Qed.

Lemma put_keys_mono k v s x : x ∈ s.*1 -> x ∈ (put k v s).*1.
Proof.
  induction s as [|[k' v'] s IH]; simpl; [intros Hx; inversion Hx|].
  intros Hx. destruct (k <? k'); [right; exact Hx|].
  destruct (Z.eqb_spec k k') as [->|Hne]; simpl.
  - exact Hx.
  - apply elem_of_cons in Hx as [->|Hx]; [left|right; apply IH, Hx].
Qed.

Lemma saveToIndexedDB_keys_mono (keyPath : V -> Z) data : forall s x,
  x ∈ s.*1 -> x ∈ (saveToIndexedDB keyPath data s).*1.
Proof.
  unfold saveToIndexedDB.
  induction data as [|item data IH]; intros s x Hx; simpl; [exact Hx|].
  apply IH, put_keys_mono, Hx.
Qed.

Lemma saveToIndexedDB_keys_in (keyPath : V -> Z) data : forall s item,
  item ∈ data -> keyPath item ∈ (saveToIndexedDB keyPath data s).*1.
Proof.
  unfold saveToIndexedDB.
  induction data as [|item' data IH]; intros s item Hin; [inversion Hin|].
  simpl. apply elem_of_cons in Hin as [->|Hin].
  - apply (saveToIndexedDB_keys_mono keyPath data), put_key_in.
  - apply IH, Hin.
Qed.
End PutKeys.

Lemma step_tasksStore_keys ev sd k :
  k ∈ (tasksStore sd.2).*1 -> k ∈ (tasksStore (step ev sd).2).*1.
Proof.
  destruct sd as [st db]. unfold step. cbn [fst snd]. intros Hk.
  assert (k ∈ (tasksStore (if setsTasks ev st
                           then saveTasksEffect (handle ev st) db else db)).*1) as Hk'.
  { destruct (setsTasks ev st); [|exact Hk]. unfold saveTasksEffect.
    destruct (0 <? length _)%nat; [|exact Hk].
    cbn [tasksStore]. apply saveToIndexedDB_keys_mono, Hk. }
  destruct (setsDailyCompletion ev); [|exact Hk'].
  unfold saveCompletionsEffect. destruct (0 <? length _)%nat; exact Hk'.
Qed.

Lemma step_tasksStore_keyed ev sd :
  Forall (fun kr => id kr.2 = kr.1) (tasksStore sd.2) ->
  Forall (fun kr => id kr.2 = kr.1) (tasksStore (step ev sd).2).
Proof.
  destruct sd as [st db]. unfold step. cbn [fst snd]. intros Hk.
  assert (Forall (fun kr => id kr.2 = kr.1)
            (tasksStore (if setsTasks ev st
                         then saveTasksEffect (handle ev st) db else db))) as Hk'.
  { destruct (setsTasks ev st); [|exact Hk]. unfold saveTasksEffect.
    destruct (0 <? length _)%nat; [|exact Hk].
    cbn [tasksStore]. apply saveToIndexedDB_keyed, Hk. }
  destruct (setsDailyCompletion ev); [|exact Hk'].
  unfold saveCompletionsEffect. destruct (0 <? length _)%nat; exact Hk'.
Qed.

Lemma loadData_ids db st :
  Forall (fun kr => id kr.2 = kr.1) (tasksStore db) ->
  tasksStore db <> [] ->
  ids (tasks (loadData db st)) ≡ₚ (tasksStore db).*1.
Proof.
  intros Hkeyed Hne. rewrite loadData_tasks.
  destruct (tasksStore db) as [|r rs] eqn:Hs; [congruence|].
  unfold ids. rewrite (sort_Permutation byPriority). unfold getAll.
  rewrite map_map. clear Hs Hne.
  induction Hkeyed as [|[k t] s Hk Hs IH]; [reflexivity|].
  simpl in *. rewrite Hk, IH. reflexivity.
Qed.

(** X17: the tasks store never forgets.  Once the store holds a record
    under an id, every later reload brings back a task with that id,
    whatever actions came in between, [removeTask] of that id included;
    and a task that [addTask] adds is in the store after the action. *)
Theorem tasksStore_never_forgets evs sd st0 k :
  Forall (fun kr => id kr.2 = kr.1) (tasksStore sd.2) ->
  (k ∈ (tasksStore sd.2).*1 ->
   k ∈ ids (tasks (loadData (run evs sd).2 st0)))
  /\ (forall idNow createdNow,
        JS.trim (newTaskName sd.1) <> [] ->
        idNow ∈ (tasksStore (step (AddTask idNow createdNow) sd).2).*1).
Proof.
  intros Hkeyed. split.
  - intros Hk.
    assert (Forall (fun kr => id kr.2 = kr.1) (tasksStore (run evs sd).2)
            /\ k ∈ (tasksStore (run evs sd).2).*1) as [Hkeyed' Hk'].
    { revert sd Hkeyed Hk. induction evs as [|ev evs IH]; intros sd Hkeyed Hk;
        [split; assumption|].
      rewrite run_cons. apply IH; [apply step_tasksStore_keyed, Hkeyed|].
      apply step_tasksStore_keys, Hk. }
    rewrite loadData_ids; [exact Hk'|exact Hkeyed'|].
    intros Hnil. rewrite Hnil in Hk'. inversion Hk'.
  - intros idNow createdNow Hname. destruct sd as [st db]. cbn [fst] in Hname.
    unfold step. cbn [fst snd setsTasks setsDailyCompletion handle].
    rewrite (proj2 (truthy_nonempty _) Hname).
    unfold saveTasksEffect.
    assert (newTask idNow createdNow st ∈ tasks (addTask idNow createdNow st)) as Hin.
    { unfold addTask. rewrite (proj2 (truthy_nonempty _) Hname).
      cbn [set_newTaskPriority set_newTaskName set_tasks tasks].
      rewrite (sort_Permutation byPriority). apply elem_of_app. right. left. }
    destruct (tasks (addTask idNow createdNow st)) as [|t ts] eqn:Hts;
      [inversion Hin|].
    change (0 <? length (t :: ts))%nat with true. cbn [tasksStore].
    change idNow with (id (newTask idNow createdNow st)).
    apply saveToIndexedDB_keys_in, Hin.
Qed.

Lemma tasksStore_never_forgets_witness :
  1 ∈ ids (tasks (loadData (run [RemoveTask 1; SetTotalDays 14] removalSession).2
                           initialState)).
Proof.
  refine (proj1 (tasksStore_never_forgets [RemoveTask 1; SetTotalDays 14]
                   removalSession initialState 1 _) _).
  - vm_compute. repeat constructor.
  - vm_compute. left.
Defined.

(** ** Saving and reloading the tasks *)

Lemma pairs_fst ts : (map (fun task => (id task, task)) ts).*1 = ids ts.
Proof. induction ts as [|t ts IH]; [reflexivity|]. simpl. f_equal. exact IH. Qed.

Lemma pairs_snd ts : map snd (map (fun task => (id task, task)) ts) = ts.
Proof. induction ts as [|t ts IH]; [reflexivity|]. simpl. f_equal. exact IH. Qed.

Lemma keyed_pairs (s : list (Z * Task)) :
  Forall (fun kr => id kr.2 = kr.1) s ->
  map (fun task => (id task, task)) (getAll s) = s.
Proof.
  induction 1 as [|[k t] s Hk Hs IH]; [reflexivity|].
  simpl in *. rewrite Hk. f_equal. exact IH.
Qed.

Lemma tasksById_is_Some ts k : is_Some (tasksById ts !! k) -> k ∈ ids ts.
Proof.
  intros [t Ht]. unfold tasksById in Ht.
  apply elem_of_list_to_map_2 in Ht. rewrite <- pairs_fst.
  apply list_elem_of_fmap. exists (k, t). split; [reflexivity|exact Ht].
Qed.

Lemma foldl_insert_tasks l :
  NoDup (ids l) ->
  forall (M : gmap Z Task) k,
    foldl (fun m item => <[id item := item]> m) M l !! k
    = match tasksById l !! k with
      | Some t => Some t
      | None => M !! k
      end.
Proof.
  induction l as [|t l IH]; intros Hnd M k; [reflexivity|].
  simpl in Hnd. apply NoDup_cons in Hnd as [Ht Hnd].
  cbn [foldl]. rewrite IH by exact Hnd. unfold tasksById. cbn [map list_to_map foldr].
  simpl. fold (tasksById l).
  destruct (decide (id t = k)) as [<-|Hne].
  - rewrite !lookup_insert_eq.
    destruct (tasksById l !! id t) eqn:Hl; [|reflexivity].
    exfalso. apply Ht. apply tasksById_is_Some. rewrite Hl. eauto.
  - rewrite !lookup_insert_ne by exact Hne. reflexivity.
Qed.

Lemma save_sync l (M : gmap Z Task) :
  NoDup (ids l) ->
  (forall k, is_Some (M !! k) -> k ∈ ids l) ->
  foldl (fun m item => <[id item := item]> m) M l = tasksById l.
Proof.
  intros Hnd Hdom. apply map_eq. intros k. rewrite foldl_insert_tasks by exact Hnd.
  destruct (tasksById l !! k) as [t|] eqn:Hk; [reflexivity|].
  destruct (M !! k) as [t|] eqn:HM; [|reflexivity].
  exfalso. assert (k ∈ ids l) as Hin by (apply Hdom; rewrite HM; eauto).
  unfold tasksById in Hk. apply not_elem_of_list_to_map_2 in Hk.
  rewrite pairs_fst in Hk. contradiction.
Qed.

Lemma sync_after_save st' db :
  NoDup (ids (tasks st')) ->
  tasksStoreOk (tasksStore db) ->
  (forall k, is_Some ((list_to_map (tasksStore db) : gmap Z Task) !! k) ->
             k ∈ ids (tasks st')) ->
  tasksInSync (st', saveTasksEffect st' db).
Proof.
  intros Hnd [Hsorted Hkeyed] Hdom. unfold tasksInSync, saveTasksEffect. cbn [fst snd].
  split; [exact Hnd|].
  destruct (tasks st') as [|t ts] eqn:Hts.
  - simpl. split; [split; assumption|].
    apply map_eq. intros k. unfold tasksById. simpl. rewrite lookup_empty.
    destruct (_ !! k) eqn:Hk; [|reflexivity].
    exfalso. assert (k ∈ ids []) as Hin by (apply Hdom; rewrite Hk; eauto).
    inversion Hin.
  - change (0 <? length (t :: ts))%nat with true. cbn [tasksStore]. split.
    + split; [apply saveToIndexedDB_sorted, Hsorted|apply saveToIndexedDB_keyed, Hkeyed].
    + rewrite saveToIndexedDB_list_to_map. apply save_sync; assumption.
Qed.

Lemma filter_all {A} (P : A -> Prop) `{!forall x, Decision (P x)} (l : list A) :
  Forall P l -> filter P l = l.
Proof.
  induction 1 as [|x l Hx Hl IH]; [reflexivity|].
  rewrite filter_cons, decide_True by exact Hx. f_equal. exact IH.
Qed.

Lemma handle_keeps_ids ev st :
  keepsTasks ev st -> NoDup (ids (tasks st)) ->
  NoDup (ids (tasks (handle ev st)))
  /\ (forall k, k ∈ ids (tasks st) -> k ∈ ids (tasks (handle ev st))).
Proof.
  intros Hkeep Hnd.
  destruct ev as [s|p|n|e|idNow createdNow|taskId updates|taskId|taskId date];
    cbn [handle]; try (split; [exact Hnd|tauto]).
  - unfold addTask. destruct (JS.truthy _); [|split; [exact Hnd|tauto]].
    cbn [set_newTaskPriority set_newTaskName set_tasks tasks].
    assert (ids (JS.sort byPriority (tasks st ++ [newTask idNow createdNow st]))
            ≡ₚ ids (tasks st) ++ [idNow]) as Hperm.
    { unfold ids. rewrite (sort_Permutation byPriority), map_app. reflexivity. }
    split.
    + rewrite Hperm. apply NoDup_app. split; [exact Hnd|]. split.
      * intros x Hx Hx'. apply list_elem_of_singleton in Hx'. subst x.
        apply Hkeep, Hx.
      * apply NoDup_singleton.
    + intros k Hk. rewrite Hperm. apply elem_of_app. left. exact Hk.
  - unfold updateTask. cbn [set_editingTask set_tasks tasks].
    assert (ids (JS.sort byPriority
                   (map (fun task => if decide (id task = taskId)
                                     then merge task updates else task) (tasks st)))
            ≡ₚ ids (tasks st)) as Hperm.
    { unfold ids. rewrite (sort_Permutation byPriority), map_map.
      erewrite map_ext; [reflexivity|].
      intros task. simpl. destruct (decide (id task = taskId)); reflexivity. }
    split; [rewrite Hperm; exact Hnd|].
    intros k Hk. rewrite Hperm. exact Hk.
  - unfold removeTask. cbn [set_dailyCompletion set_tasks tasks].
    rewrite filter_all; [split; [exact Hnd|tauto]|].
    apply Forall_forall. intros task Hin Heq. apply Hkeep.
    unfold ids. rewrite <- Heq. apply list_elem_of_fmap_2. exact Hin.
Qed.

Lemma step_tasksInSync ev sd :
  tasksInSync sd -> keepsTasks ev sd.1 -> tasksInSync (step ev sd).
Proof.
  destruct sd as [st db]. cbn [fst]. intros (Hnd & Hok & Hmap) Hkeep.
  destruct (handle_keeps_ids ev st Hkeep Hnd) as [Hnd' Hsub].
  assert (tasksInSync (handle ev st,
            if setsTasks ev st then saveTasksEffect (handle ev st) db else db))
    as Hsync.
  { destruct (setsTasks ev st) eqn:Hsets.
    - apply sync_after_save; [exact Hnd'|exact Hok|].
      cbn [snd] in Hmap. rewrite Hmap. intros k Hk.
      apply Hsub, tasksById_is_Some, Hk.
    - assert (tasks (handle ev st) = tasks st) as Hts.
      { destruct ev; try discriminate; cbn [handle]; try reflexivity.
        unfold addTask. cbn [setsTasks] in Hsets. rewrite Hsets. reflexivity. }
      unfold tasksInSync. cbn [fst snd] in *. rewrite Hts.
      split; [exact Hnd|]. split; assumption. }
  unfold step. destruct (setsDailyCompletion ev); [|exact Hsync].
  unfold saveCompletionsEffect. destruct (0 <? length _)%nat; exact Hsync.
Qed.

Lemma loadData_tasksInSync db :
  tasksStoreOk (tasksStore db) -> tasksInSync (loadData db initialState, db).
Proof.
  intros [Hsorted Hkeyed]. unfold tasksInSync. cbn [fst snd].
  rewrite loadData_tasks.
  destruct (tasksStore db) as [|r rs] eqn:Hs.
  - split; [constructor|]. split; [split; assumption|reflexivity].
  - rewrite <- Hs in *. clear r rs Hs.
    assert (NoDup (ids (getAll (tasksStore db)))) as Hnd.
    { rewrite <- pairs_fst, keyed_pairs by exact Hkeyed.
      apply StronglySorted_lt_NoDup, Hsorted. }
    assert (ids (JS.sort byPriority (getAll (tasksStore db)))
            ≡ₚ ids (getAll (tasksStore db))) as Hperm.
    { unfold ids. apply Permutation_map, sort_Permutation. }
    split; [rewrite Hperm; exact Hnd|]. split; [split; assumption|].
    unfold tasksById.
    rewrite (list_to_map_proper
               (map (fun task => (id task, task)) (JS.sort byPriority (getAll (tasksStore db))))
               (map (fun task => (id task, task)) (getAll (tasksStore db)))).
    + rewrite keyed_pairs by exact Hkeyed. reflexivity.
    + rewrite pairs_fst, Hperm. exact Hnd.
    + apply Permutation_map, sort_Permutation.
Qed.

(** X18: saving and reloading gives back the tasks when no task is removed
    and no id is used twice.  In a session that starts with a load of a
    well-formed store and whose actions add tasks under fresh ids only and
    remove no existing task, the tasks of a reload are the tasks of the
    state, up to their order. *)
Theorem tasks_round_trip db evs :
  tasksStoreOk (tasksStore db) ->
  keepsTasksAll evs (loadData db initialState, db) ->
  tasks (loadData (run evs (loadData db initialState, db)).2 initialState)
  ≡ₚ tasks (run evs (loadData db initialState, db)).1.
Proof.
  intros Hok Hkeep.
  pose proof (loadData_tasksInSync db Hok) as Hsync.
  generalize dependent (loadData db initialState, db). intros sd Hkeep Hsync.
  assert (tasksInSync (run evs sd)) as (Hnd & [Hsorted Hkeyed] & Hmap).
  { revert sd Hkeep Hsync. induction evs as [|ev evs IH]; intros sd Hkeep Hsync;
      [exact Hsync|].
    destruct Hkeep as [Hev Hkeep]. rewrite run_cons.
    apply IH; [exact Hkeep|]. apply step_tasksInSync; assumption. }
  rewrite loadData_tasks.
  assert (getAll (tasksStore (run evs sd).2) ≡ₚ tasks (run evs sd).1) as Hperm.
  { rewrite <- (pairs_snd (tasks (run evs sd).1)). unfold getAll.
    apply Permutation_map. apply list_to_map_inj.
    - apply StronglySorted_lt_NoDup, Hsorted.
    - rewrite pairs_fst. exact Hnd.
    - exact Hmap. }
  destruct (tasksStore (run evs sd).2) as [|r rs] eqn:Hs.
  - simpl in Hperm. simpl. exact Hperm.
  - rewrite (sort_Permutation byPriority). exact Hperm.
Qed.

Lemma tasks_round_trip_witness :
  tasks (loadData (run (firstn 8 toggleEvents) (loadData emptyDB initialState, emptyDB)).2
                  initialState)
  ≡ₚ tasks (run (firstn 8 toggleEvents) (loadData emptyDB initialState, emptyDB)).1.
Proof.
  refine (tasks_round_trip emptyDB (firstn 8 toggleEvents) _ _).
  - split; constructor.
  - vm_compute. repeat split; intros H; repeat (apply elem_of_cons in H as [H|H]; [discriminate H|]); inversion H.
Defined.

(** ** The calendar and the monthly summary *)

Lemma div_step (a b : Z) :
  0 < b -> (a + 1) / b = a / b + (if (a + 1) mod b =? 0 then 1 else 0).
Proof.
  intros Hb.
  pose proof (Z.div_mod (a + 1) b ltac:(lia)) as H1.
  pose proof (Z.div_mod a b ltac:(lia)) as H2.
  pose proof (Z.mod_pos_bound a b Hb) as H3.
  pose proof (Z.mod_pos_bound (a + 1) b Hb) as H4.
  destruct (Z.eqb_spec ((a + 1) mod b) 0) as [H|H]; nia.
Qed.

Lemma mod_shift (y k b : Z) : b <> 0 -> k mod b = 0 -> (y + k) mod b = y mod b.
Proof.
  intros Hb Hk. rewrite Z.add_mod, Hk, Z.add_0_r, Z.mod_mod by exact Hb. reflexivity.
Qed.

(** A year has 365 days, or 366 when it is a leap year. *)
Lemma DayFromYear_succ y :
  DayFromYear (y + 1) = DayFromYear y + (if InLeapYear y then 366 else 365).
Proof.
  unfold DayFromYear, InLeapYear.
  replace (y + 1 - 1969) with (y - 1969 + 1) by lia.
  replace (y + 1 - 1901) with (y - 1901 + 1) by lia.
  replace (y + 1 - 1601) with (y - 1601 + 1) by lia.
  rewrite !div_step by lia.
  replace (y - 1969 + 1) with (y + -1968) by lia.
  replace (y - 1901 + 1) with (y + -1900) by lia.
  replace (y - 1601 + 1) with (y + -1600) by lia.
  rewrite !mod_shift by (try lia; reflexivity).
  assert (y mod 100 = 0 -> y mod 4 = 0) as H1.
  { intros H. apply Z.mod_divide in H; [|lia]. apply Z.mod_divide; [lia|].
    destruct H as [q ->]. exists (q * 25). lia. }
  assert (y mod 400 = 0 -> y mod 100 = 0) as H2.
  { intros H. apply Z.mod_divide in H; [|lia]. apply Z.mod_divide; [lia|].
    destruct H as [q ->]. exists (q * 4). lia. }
  destruct (Z.eqb_spec (y mod 4) 0) as [E4|E4],
           (Z.eqb_spec (y mod 100) 0) as [E100|E100],
           (Z.eqb_spec (y mod 400) 0) as [E400|E400];
    cbn [andb orb negb]; try (exfalso; tauto); lia.
Qed.

(** The first of the next month comes after the days of the month. *)
Lemma MakeDay_next_month y m :
  MakeDay y (m + 1) 1
  = MakeDay y m 1 + daysInMonth (InLeapYear (y + m / 12)) (m mod 12).
Proof.
  unfold MakeDay.
  assert (0 <= m mod 12 < 12) as Hmn by (apply Z.mod_pos_bound; lia).
  destruct (Z.eq_dec (m mod 12) 11) as [H11|Hne].
  - assert ((m + 1) / 12 = m / 12 + 1) as Hq by (Z.div_mod_to_equations; lia).
    assert ((m + 1) mod 12 = 0) as Hr by (Z.div_mod_to_equations; lia).
    rewrite Hq, Hr, H11. replace (y + (m / 12 + 1)) with (y + m / 12 + 1) by lia.
    rewrite DayFromYear_succ.
    destruct (InLeapYear (y + m / 12)), (InLeapYear (y + m / 12 + 1));
      simpl; lia.
  - assert ((m + 1) / 12 = m / 12) as Hq by (Z.div_mod_to_equations; lia).
    assert ((m + 1) mod 12 = m mod 12 + 1) as Hr by (Z.div_mod_to_equations; lia).
    rewrite Hq, Hr.
    assert (m mod 12 = 0 \/ m mod 12 = 1 \/ m mod 12 = 2 \/ m mod 12 = 3
            \/ m mod 12 = 4 \/ m mod 12 = 5 \/ m mod 12 = 6 \/ m mod 12 = 7
            \/ m mod 12 = 8 \/ m mod 12 = 9 \/ m mod 12 = 10) as Hcases by lia.
    destruct (InLeapYear (y + m / 12));
      repeat (destruct Hcases as [Hc|Hcases]; [rewrite Hc; simpl; lia|]);
      rewrite Hcases; simpl; lia.
Qed.

Lemma daysInMonth_range leap mn : 28 <= daysInMonth leap mn <= 31.
Proof.
  unfold daysInMonth.
  destruct leap, mn as [|p|p]; try lia;
    do 4 (try destruct p as [p|p|]; try lia).
Qed.

(** [YearFromDay] is the year whose days contain the day. *)
Lemma YearFromDay_spec day :
  DayFromYear (YearFromDay day) <= day < DayFromYear (YearFromDay day + 1).
Proof.
  unfold YearFromDay.
  set (y := 1970 + day * 400 / 146097).
  destruct (Z.leb_spec (DayFromYear (y + 1)) day) as [H1|H1].
  - split; [exact H1|]. unfold DayFromYear in *. subst y.
    Z.div_mod_to_equations. lia.
  - destruct (Z.ltb_spec day (DayFromYear y)) as [H2|H2].
    + replace (y - 1 + 1) with y by lia. split; [|exact H2].
      unfold DayFromYear in *. subst y. Z.div_mod_to_equations. lia.
    + split; assumption.
Qed.

(** [MonthFromDay] is the month, of that year, whose days contain the
    day. *)
Lemma MonthFromDay_spec day :
  0 <= MonthFromDay day <= 11
  /\ MakeDay (YearFromDay day) (MonthFromDay day) 1 <= day
     < MakeDay (YearFromDay day) (MonthFromDay day + 1) 1.
Proof.
  pose proof (YearFromDay_spec day) as Hy. rewrite DayFromYear_succ in Hy.
  assert (0 <= MonthFromDay day <= 11
          /\ monthStartInYear (InLeapYear (YearFromDay day)) (MonthFromDay day)
             <= day - DayFromYear (YearFromDay day)
             < monthStartInYear (InLeapYear (YearFromDay day)) (MonthFromDay day)
               + daysInMonth (InLeapYear (YearFromDay day)) (MonthFromDay day))
    as (Hm & Hd).
  { unfold MonthFromDay.
    set (d := day - DayFromYear (YearFromDay day)) in *.
    destruct (InLeapYear (YearFromDay day)); cbn [monthStartInYear] in *;
      repeat (match goal with
              | |- context [if ?a <? ?b then _ else _] =>
                  destruct (Z.ltb_spec a b)
              end; [cbn [monthStartInYear daysInMonth]; lia|]);
      cbn [monthStartInYear daysInMonth]; lia. }
  split; [exact Hm|].
  rewrite MakeDay_next_month. unfold MakeDay.
  rewrite Z.div_small, Z.mod_small by lia. rewrite Z.add_0_r. lia.
Qed.

Lemma MakeDay_date y m d : MakeDay y m d = MakeDay y m 1 + (d - 1).
Proof. unfold MakeDay. lia. Qed.

(** The key of a local midnight: the local day, moved by the whole days
    of the offset. *)
Lemma dateStr_newDate tz y m d :
  dateStr (newDate tz y m d) = MakeDay (constructorYear y) m d + (- tz) / msPerDay.
Proof.
  unfold dateStr, newDate.
  replace (MakeDay (constructorYear y) m d * msPerDay - tz)
    with (MakeDay (constructorYear y) m d * msPerDay + - tz) by lia.
  rewrite Z.div_add_l by (unfold msPerDay; lia). reflexivity.
Qed.

(** The loop over the days of a month runs once for each of its days. *)
Lemma periodTotals_month fuel tz y m st :
  (31 < fuel)%nat ->
  let days := daysInMonth (InLeapYear (constructorYear y + m / 12)) (m mod 12) in
  periodTotals fuel (newDate tz y m 1) (newDate tz y (m + 1) 0) st
  = Some (completedSlotsIn (dailyCompletion st) (tasks st)
            (dateStr (newDate tz y m 1)) (Z.to_nat days),
          days * Z.of_nat (length (tasks st))).
Proof.
  intros Hfuel days.
  pose proof (daysInMonth_range (InLeapYear (constructorYear y + m / 12)) (m mod 12))
    as Hdays. fold days in Hdays.
  assert (newDate tz y (m + 1) 0
          = addDays (newDate tz y m 1) (days - 1)) as Hend.
  { unfold newDate, addDays.
    rewrite (MakeDay_date _ (m + 1) 0), MakeDay_next_month. fold days. lia. }
  rewrite (periodTotals_spec fuel _ _ st (Z.to_nat days)).
  - rewrite Z2Nat.id by lia. reflexivity.
  - lia.
  - rewrite Hend, Z2Nat.id by lia. unfold addDays, msPerDay. lia.
  - right. rewrite Hend, Z2Nat.id by lia. lia.
Qed.

(** The loop appends the entries of the months [i], [i + 1], ... before
    the one of today. *)
Lemma getMonthlySummary_loop_spec fuel tz now st n :
  (31 < fuel)%nat ->
  forall i months,
    getMonthlySummary_loop n i months fuel tz now st
    = Some (months
            ++ map (fun k : nat => monthBefore tz now st (i + Z.of_nat k)) (seq 0 n)).
Proof.
  intros Hfuel. induction n as [|n IH]; intros i months.
  - simpl. rewrite app_nil_r. reflexivity.
  - cbn [getMonthlySummary_loop].
    rewrite periodTotals_month by exact Hfuel. cbn [mbind option_bind].
    rewrite IH, <- app_assoc. do 2 f_equal.
    cbn [seq map app]. f_equal.
    + unfold monthBefore, monthDays.
      replace (i + Z.of_nat 0) with i by lia. reflexivity.
    + rewrite <- seq_shift, map_map. apply map_ext. intros k.
      f_equal. lia.
Qed.

(** The months of the summary are adjacent calendar months. *)
Lemma monthFirst_next tz now i :
  monthFirst tz now (i - 1) = monthFirst tz now i + monthDays tz now i.
Proof.
  unfold monthFirst, monthDays.
  replace (getMonth tz now - (i - 1)) with (getMonth tz now - i + 1) by lia.
  apply MakeDay_next_month.
Qed.

(** Today lies in the month of today, for a year that the [Date]
    constructor takes as it is. *)
Lemma today_in_month tz now :
  ~ (0 <= getFullYear tz now <= 99) ->
  monthFirst tz now 0 <= localDay tz now
  < monthFirst tz now 0 + monthDays tz now 0.
Proof.
  intros Hyear. rewrite <- monthFirst_next. unfold monthFirst.
  assert (constructorYear (getFullYear tz now) = getFullYear tz now) as ->.
  { unfold constructorYear.
    destruct (Z.leb_spec 0 (getFullYear tz now)),
             (Z.leb_spec (getFullYear tz now) 99); cbn [andb]; lia. }
  replace (getMonth tz now - (0 - 1)) with (getMonth tz now + 1) by lia.
  rewrite Z.sub_0_r. unfold getFullYear, getMonth.
  apply MonthFromDay_spec.
Qed.

(** X19 (getMonthlySummary): with fuel for the 31 days of a month, the
    monthly summary has three entries, oldest first, for the month of
    today and the two calendar months before it.  Each month has 28 to 31
    days and ends where the next one starts, each entry is the percentage
    over as many day keys as the month has days, 0 without tasks, and,
    unless the year of today lies in 0 .. 99, today is a day of the last
    month. *)
Theorem getMonthlySummary_spec fuel tz now st :
  (31 < fuel)%nat ->
  let months := [monthBefore tz now st 2; monthBefore tz now st 1;
                 monthBefore tz now st 0] in
  getMonthlySummary fuel tz now st = Some months
  /\ (forall i, 28 <= monthDays tz now i <= 31
                /\ monthFirst tz now (i - 1)
                   = monthFirst tz now i + monthDays tz now i)
  /\ Forall (fun m => localDay tz (month m) * msPerDay = month m + tz) months
  /\ map (fun m => localDay tz (month m)) months
     = [monthFirst tz now 2; monthFirst tz now 1; monthFirst tz now 0]
  /\ (tasks st = [] -> Forall (fun m => month_completion m = JS.of_Z 0) months)
  /\ (~ (0 <= getFullYear tz now <= 99) ->
      monthFirst tz now 0 <= localDay tz now
      < monthFirst tz now 0 + monthDays tz now 0).
Proof.
  intros Hfuel months.
  assert (forall y m, localDay tz (newDate tz y m 1) = MakeDay (constructorYear y) m 1)
    as Hlocal.
  { intros y m. unfold localDay, newDate.
    replace (MakeDay (constructorYear y) m 1 * msPerDay - tz + tz)
      with (MakeDay (constructorYear y) m 1 * msPerDay) by lia.
    apply Z.div_mul. unfold msPerDay. lia. }
  split.
  { unfold getMonthlySummary.
    rewrite getMonthlySummary_loop_spec by exact Hfuel. reflexivity. }
  split.
  { intros i. split; [apply daysInMonth_range | apply monthFirst_next]. }
  split.
  { unfold months. repeat constructor; cbn [month monthBefore];
      rewrite Hlocal; unfold newDate; lia. }
  split.
  { unfold months, monthFirst. cbn [map month monthBefore].
    rewrite !Hlocal. reflexivity. }
  split.
  { intros Hts. unfold months.
    repeat constructor; cbn [month_completion monthBefore];
      rewrite Hts; unfold periodCompletion; cbn [length];
      rewrite Z.mul_0_r; reflexivity. }
  apply today_in_month.
Qed.

Lemma getMonthlySummary_spec_witness :
  getMonthlySummary 32 0 (20 * msPerDay) twoDayStreak
  = Some [monthBefore 0 (20 * msPerDay) twoDayStreak 2;
          monthBefore 0 (20 * msPerDay) twoDayStreak 1;
          monthBefore 0 (20 * msPerDay) twoDayStreak 0].
Proof.
  refine (proj1 (getMonthlySummary_spec 32 0 (20 * msPerDay) twoDayStreak _)).
  lia.
Defined.

(** X20 (getMonthlySummary): the day keys that an entry counts start at
    the UTC date of the local midnight that opens the month.  West of
    Greenwich, and at it, that is the first of the month; east of it the
    day before, so that the entry counts the last day of the month before
    and leaves out the last day of its own month.  The key of today is
    then in the window of the last entry or the one key behind it, and in
    the window when local time is UTC. *)
Theorem getMonthlySummary_keys tz now st :
  (- msPerDay < tz <= 0 ->
   forall i, dateStr (month (monthBefore tz now st i)) = monthFirst tz now i)
  /\ (0 < tz <= msPerDay ->
      forall i, dateStr (month (monthBefore tz now st i)) = monthFirst tz now i - 1)
  /\ (~ (0 <= getFullYear tz now <= 99) -> - msPerDay < tz < msPerDay ->
      dateStr (month (monthBefore tz now st 0)) <= getTodayDate now
      <= dateStr (month (monthBefore tz now st 0)) + monthDays tz now 0)
  /\ (~ (0 <= getFullYear 0 now <= 99) ->
      dateStr (month (monthBefore 0 now st 0)) <= getTodayDate now
      < dateStr (month (monthBefore 0 now st 0)) + monthDays 0 now 0).
Proof.
  assert (forall t i, dateStr (month (monthBefore t now st i))
                      = monthFirst t now i + (- t) / msPerDay) as Hkey.
  { intros t i. cbn [month monthBefore]. apply dateStr_newDate. }
  split; [|split; [|split]].
  - intros Htz i. rewrite Hkey.
    assert ((- tz) / msPerDay = 0) as ->
      by (apply Z.div_small; unfold msPerDay in *; lia).
    lia.
  - intros Htz i. rewrite Hkey.
    assert ((- tz) / msPerDay = -1) as ->
      by (unfold msPerDay in *; Z.div_mod_to_equations; lia).
    lia.
  - intros Hyear Htz. rewrite Hkey.
    pose proof (today_in_month tz now Hyear) as Htoday.
    unfold getTodayDate, dateStr, localDay in *.
    set (F := monthFirst tz now 0) in *. set (D := monthDays tz now 0) in *.
    clearbody F D. unfold msPerDay in *. Z.div_mod_to_equations. lia.
  - intros Hyear. rewrite Hkey.
    pose proof (today_in_month 0 now Hyear) as Htoday.
    unfold getTodayDate, dateStr, localDay in *.
    rewrite Z.add_0_r in Htoday. cbn [Z.opp].
    rewrite Z.div_0_l by (unfold msPerDay; lia). lia.
Qed.
